(** * The task-list state manager of chapter4/todo.jsx

    A shallow embedding of the React component [TodoApp] and of its
    [useLocalStorage] hook, with the parts of the JavaScript platform they
    call ([String.prototype.trim], [includes], [JSON.parse],
    [JSON.stringify], [localStorage]), and the properties the specification
    states about them. *)

From Stdlib Require Import List ZArith NArith Lia Bool Ascii String DecimalN.
From stdpp Require Import gmap.
Import ListNotations.

Local Open Scope N_scope.

(** ** The JavaScript platform *)

Module JS.

(** A JavaScript string is a sequence of UTF-16 code units, each a number
    below 2^16. *)
Abbreviation jsstring := (list N).

(** The code units of an ASCII literal, to write strings in examples. *)
Definition str (s : string) : jsstring :=
  List.map N_of_ascii (list_ascii_of_string s).

(** ToBoolean on a string: the empty string is the only falsy one. *)
Definition truthy (s : jsstring) : bool :=
  match s with
  | [] => false
  | _ :: _ => true
  end.

(** ECMAScript WhiteSpace and LineTerminator code points, the ones [trim]
    strips: TAB, LF, VT, FF, CR, SP, NBSP, U+1680, U+2000..U+200A, LS, PS,
    U+202F, U+205F, U+3000 and the BOM U+FEFF. *)
Definition isWhiteSpace (c : N) : bool :=
  (c =? 9) || (c =? 10) || (c =? 11) || (c =? 12) || (c =? 13) || (c =? 32)
  || (c =? 160) || (c =? 5760) || ((8192 <=? c) && (c <=? 8202))
  || (c =? 8232) || (c =? 8233) || (c =? 8239) || (c =? 8287)
  || (c =? 12288) || (c =? 65279).

Fixpoint dropWhile {A} (p : A -> bool) (l : list A) : list A :=
  match l with
  | [] => []
  | x :: l' => if p x then dropWhile p l' else l
  end.

(** String.prototype.trimStart, trimEnd and trim. *)
Definition trimStart (s : jsstring) : jsstring := dropWhile isWhiteSpace s.

Definition trimEnd (s : jsstring) : jsstring :=
  rev (dropWhile isWhiteSpace (rev s)).

Definition trim (s : jsstring) : jsstring := trimEnd (trimStart s).

Fixpoint startsWith (s q : jsstring) {struct q} : bool :=
  match q, s with
  | [], _ => true
  | _ :: _, [] => false
  | d :: q', c :: s' => (c =? d) && startsWith s' q'
  end.

(** String.prototype.includes: [q] occurs in [s] as a contiguous run of
    code units. *)
Fixpoint includes (s q : jsstring) : bool :=
  startsWith s q ||
  match s with
  | [] => false
  | _ :: s' => includes s' q
  end.

(** ASCII-only lower-casing: an instance of [toLowerCase], which the
    development otherwise keeps abstract (the Unicode case tables are the
    platform's). *)
Definition asciiLower (s : jsstring) : jsstring :=
  List.map (fun c => if (65 <=? c) && (c <=? 90) then c + 32 else c) s.

(** The completion of a call: a value, or a thrown exception. *)
Inductive completion (A : Type) : Type :=
| Return (a : A)
| Throw.
Arguments Return {A} a.
Arguments Throw {A}.

Definition bind {A B} (c : completion A) (f : A -> completion B)
  : completion B :=
  match c with
  | Return a => f a
  | Throw => Throw
  end.

(** [try { body } catch { handler }] *)
Definition try_catch {A} (body handler : completion A) : completion A :=
  match body with
  | Return a => Return a
  | Throw => handler
  end.

(** [localStorage]: the stored items, whether the page is denied access to
    the storage (every call then throws a SecurityError), and the quota in
    code units ([setItem] throws a QuotaExceededError beyond it). *)
Record Storage := mkStorage {
  items : gmap (list N) (list N);
  denied : bool;
  quota : nat
}.

Definition usage (m : gmap (list N) (list N)) : nat :=
  map_fold (fun k v n => (length k + length v + n)%nat) 0%nat m.

(** [localStorage.getItem(key)]: the stored string, or [null]. *)
Definition getItem (ls : Storage) (key : jsstring)
  : completion (option jsstring) :=
  if denied ls then Throw else Return (items ls !! key).

(** [localStorage.setItem(key, value)] *)
Definition setItem (ls : Storage) (key value : jsstring)
  : completion Storage :=
  if denied ls then Throw
  else
    let m := <[key := value]> (items ls) in
    if (usage m <=? quota ls)%nat
    then Return (mkStorage m (denied ls) (quota ls))
    else Throw.

(** *** Numbers

    A JavaScript number is an IEEE 754 binary64 value (a double).
    [Finite neg m e] is [(-1)^neg * m * 2^e]; the two zeros are
    [Finite false 0 (-1074)] and [Finite true 0 (-1074)]. *)
Inductive number :=
| Finite (neg : bool) (m e : Z)
| Infinite (neg : bool)
| NaN.

(** The doubles: zero, the normal numbers (53 significant bits) and the
    subnormal ones. *)
Definition is_double (x : number) : bool :=
  match x with
  | Finite _ m e =>
      ((m =? 0) && (e =? -1074)
       || (2 ^ 52 <=? m) && (m <? 2 ^ 53) && (-1074 <=? e) && (e <=? 971)
       || (0 <? m) && (m <? 2 ^ 52) && (e =? -1074))%Z
  | _ => true
  end.

Definition number_eqb (x y : number) : bool :=
  match x, y with
  | Finite n1 m1 e1, Finite n2 m2 e2 =>
      Bool.eqb n1 n2 && (m1 =? m2)%Z && (e1 =? e2)%Z
  | Infinite n1, Infinite n2 => Bool.eqb n1 n2
  | NaN, NaN => true
  | _, _ => false
  end.

(** [2^e], and 1 for a negative [e]; likewise [10^e]. *)
Definition pow2 (e : Z) : Z := (2 ^ Z.max 0 e)%Z.
Definition pow10 (e : Z) : Z := (10 ^ Z.max 0 e)%Z.

(** The double nearest to the positive rational [num / den], ties to the
    even significand: its significand and exponent, or [None] when the
    rounding overflows to Infinity. *)
Definition round_pos (num den : Z) : option (Z * Z) :=
  (if num =? 0 then Some (0, -1074)
   else
     let d := Z.log2 num - Z.log2 den in
     let e1 := Z.max (d - 53) (-1074) in
     let e := if (num * pow2 (- e1)) / (den * pow2 e1) <? 2 ^ 53
              then e1 else e1 + 1 in
     let n := num * pow2 (- e) in
     let dn := den * pow2 e in
     let q := n / dn in
     let r := n mod dn in
     let m := if 2 * r <? dn then q
              else if dn <? 2 * r then q + 1
              else if Z.even q then q else q + 1 in
     let (m', e') := if m =? 2 ^ 53 then (2 ^ 52, e + 1) else (m, e) in
     if 971 <? e' then None else Some (m', e'))%Z.

(** The Number value of the decimal [a * 10^e10], as a numeric literal
    denotes it: the nearest double, and Infinity beyond the largest. *)
Definition decimal_to_number (neg : bool) (a e10 : Z) : number :=
  let (num, den) :=
    (if 0 <=? e10 then (a * 10 ^ e10, 1) else (a, 10 ^ (- e10)))%Z in
  match round_pos num den with
  | Some (m, e) => Finite neg m e
  | None => Infinite neg
  end.

(** The Number value of an integer, such as the milliseconds [Date.now()]
    returns. *)
Definition ms (z : Z) : number := decimal_to_number (z <? 0)%Z (Z.abs z) 0.

(** Decimal digits, as code units. *)
Definition isDigit (c : N) : bool := (48 <=? c) && (c <=? 57).

Fixpoint digits_value_acc (l : jsstring) (acc : Z) : Z :=
  match l with
  | [] => acc
  | c :: l' => digits_value_acc l' (10 * acc + (Z.of_N c - 48))%Z
  end.

Definition digits_value (l : jsstring) : Z := digits_value_acc l 0.

Fixpoint digits_acc (fuel : nat) (z : Z) (acc : jsstring) : jsstring :=
  let acc' := Z.to_N (48 + z mod 10) :: acc in
  match fuel with
  | O => acc'
  | S f => if (z <? 10)%Z then acc' else digits_acc f (z / 10) acc'
  end.

(** The decimal digits of a natural number. *)
Definition digits_of (z : Z) : jsstring :=
  digits_acc (Z.to_nat (Z.log2 z)) z [].

Definition count_digits (z : Z) : Z := Z.of_nat (List.length (digits_of z)).

(** [n] with [10^(n-1) <= vn / vd < 10^n]. *)
Definition decimal_exponent (vn vd : Z) : Z :=
  (let n0 := count_digits vn - count_digits vd in
   if vd * pow10 n0 <=? vn * pow10 (- n0) then n0 + 1 else n0)%Z.

(** [s] has [k] digits and [s * 10^(n-k)] is read back as [m * 2^e]. *)
Definition reads_back (m e s n k : Z) : bool :=
  ((0 <? s) && (count_digits s =? k))%Z
  && number_eqb (decimal_to_number false s (n - k)) (Finite false m e).

(** The first of two decimals [(s, n)] of [k] digits that is read back as
    [m * 2^e]. *)
Definition first_read_back (m e k : Z) (c1 c2 : Z * Z) : option (Z * Z) :=
  if reads_back m e (fst c1) (snd c1) k then Some c1
  else if reads_back m e (fst c2) (snd c2) k then Some c2
  else None.

(** The [k]-digit decimals next to [m * 2^e], the nearer one first (the
    even one on a tie): the first that is read back as [m * 2^e]. *)
Definition candidate (m e n k : Z) : option (Z * Z) :=
  (let num := m * pow2 e * pow10 (k - n) in
   let den := pow2 (- e) * pow10 (n - k) in
   let lo := num / den in
   let r := num mod den in
   let fit s := if s =? 10 ^ k then (10 ^ (k - 1), n + 1) else (s, n) in
   let down := (2 * r <? den) || ((2 * r =? den) && Z.even lo) in
   first_read_back m e k
     (fit (if down then lo else lo + 1))
     (fit (if down then lo + 1 else lo)))%Z.

Fixpoint search_digits (fuel : nat) (m e n k : Z) : option (Z * Z * Z) :=
  match fuel with
  | O => None
  | S f =>
      match candidate m e n k with
      | Some (s, n') => Some (s, n', k)
      | None => search_digits f m e n (k + 1)%Z
      end
  end.

(** The exact decimal expansion of [m * 2^e]. *)
Definition exact_decimal (m e : Z) : Z * Z * Z :=
  (let a := if 0 <=? e then m * 2 ^ e else m * 5 ^ (- e) in
   let k := count_digits a in
   (a, k + Z.min 0 e, k))%Z.

(** Number::toString, step 5: [s], [n] and [k] with [k] as small as
    possible, [s] of [k] digits and [s * 10^(n-k)] read as the number;
    of two such [s] the one nearer to the number. No double is known to
    need more than seventeen digits; the exact expansion, which is read
    back as the number too, stands behind the search. *)
Definition shortest (m e : Z) : Z * Z * Z :=
  match search_digits 17 m e (decimal_exponent (m * pow2 e) (pow2 (- e))) 1 with
  | Some t => t
  | None => exact_decimal m e
  end.

(** Number::toString, steps 6 to 10. *)
Definition format_decimal (s n k : Z) : jsstring :=
  let ds := digits_of s in
  (if (k <=? n) && (n <=? 21) then ds ++ repeat 48%N (Z.to_nat (n - k))
   else if (0 <? n) && (n <=? 21)
   then firstn (Z.to_nat n) ds ++ 46%N :: skipn (Z.to_nat n) ds
   else if (-6 <? n) && (n <=? 0)
   then 48%N :: 46%N :: repeat 48%N (Z.to_nat (- n)) ++ ds
   else
     let exponent :=
       101%N :: (if n - 1 <? 0 then 45%N else 43%N)
             :: digits_of (Z.abs (n - 1)) in
     match ds with
     | [] => exponent
     | [d] => d :: exponent
     | d :: rest => d :: 46%N :: rest ++ exponent
     end)%Z.

Definition Number_toString (x : number) : jsstring :=
  match x with
  | NaN => str "NaN"
  | Infinite neg => if neg then str "-Infinity" else str "Infinity"
  | Finite neg m e =>
      if (m =? 0)%Z then str "0"
      else
        let '(s, n, k) := shortest m e in
        (if neg then [45] else []) ++ format_decimal s n k
  end.

(** [s] has [k] digits and [s * 10^(n-k)] denotes [m * 2^e]. *)
Definition denotes (m e s n k : Z) : Prop :=
  (0 < s)%Z /\ count_digits s = k /\
  decimal_to_number false s (n - k) = Finite false m e.

End JS.

(** ** JSON values, [JSON.stringify] and [JSON.parse] *)

Module JSON.
Import JS.

(** A JSON value as [JSON.parse] builds it. An object lists its own
    properties in the order [Object.keys] enumerates them. *)
#[warnings="-register-all"]
Inductive json :=
| JNull
| JBool (b : bool)
| JNum (x : number)
| JStr (s : jsstring)
| JArr (l : list json)
| JObj (props : list (jsstring * json)).

(** An abrupt completion (a thrown exception) is [None]. *)
Notation "'let*' p ':=' e 'in' k" :=
  (match e with Some p => k | None => None end)
  (at level 10, p pattern, e at level 200, k at level 200).

(** *** Numbers *)

Fixpoint units_of_uint (d : Decimal.uint) : jsstring :=
  match d with
  | Decimal.Nil => []
  | Decimal.D0 d => 48 :: units_of_uint d
  | Decimal.D1 d => 49 :: units_of_uint d
  | Decimal.D2 d => 50 :: units_of_uint d
  | Decimal.D3 d => 51 :: units_of_uint d
  | Decimal.D4 d => 52 :: units_of_uint d
  | Decimal.D5 d => 53 :: units_of_uint d
  | Decimal.D6 d => 54 :: units_of_uint d
  | Decimal.D7 d => 55 :: units_of_uint d
  | Decimal.D8 d => 56 :: units_of_uint d
  | Decimal.D9 d => 57 :: units_of_uint d
  end.

Definition digit_of (c : N) : option (Decimal.uint -> Decimal.uint) :=
  match c with
  | 48 => Some Decimal.D0
  | 49 => Some Decimal.D1
  | 50 => Some Decimal.D2
  | 51 => Some Decimal.D3
  | 52 => Some Decimal.D4
  | 53 => Some Decimal.D5
  | 54 => Some Decimal.D6
  | 55 => Some Decimal.D7
  | 56 => Some Decimal.D8
  | 57 => Some Decimal.D9
  | _ => None
  end.

(** The longest run of decimal digits at the front of [s], and the rest. *)
Fixpoint read_digits (s : jsstring) : Decimal.uint * jsstring :=
  match s with
  | [] => (Decimal.Nil, [])
  | c :: r =>
      match digit_of c with
      | Some digit => let (d, r') := read_digits r in (digit d, r')
      | None => (Decimal.Nil, s)
      end
  end.

Fixpoint pad_zeros (k : nat) (s : jsstring) : jsstring :=
  match k with
  | O => s
  | S k' => if (length s <? k)%nat then 48 :: pad_zeros k' s else s
  end.

(** The decimal notation of [m / 10^k]. For an integer ([k = 0]) of
    magnitude below 10^21 these are the digits Number::toString prints,
    as a template literal writes [Date.now()]. *)
Definition number_to_string (m : Z) (k : nat) : jsstring :=
  let sign := if (m <? 0)%Z then [45] else [] in
  let a := Z.abs_N m in
  match k with
  | O => sign ++ units_of_uint (N.to_uint a)
  | S _ =>
      let p := 10 ^ N.of_nat k in
      sign ++ units_of_uint (N.to_uint (a / p)) ++ [46]
           ++ pad_zeros k (units_of_uint (N.to_uint (a mod p)))
  end.

(** A canonical numeral: [0], or digits that do not start with [0]. *)
Definition int_ok (d : Decimal.uint) : bool :=
  match d with
  | Decimal.Nil => false
  | Decimal.D0 Decimal.Nil => true
  | Decimal.D0 _ => false
  | _ => true
  end.

(** The longest run of decimal digits at the front of [s], and the rest. *)
Fixpoint span_digits (s : jsstring) : jsstring * jsstring :=
  match s with
  | [] => ([], [])
  | c :: r =>
      if isDigit c then let (d, r') := span_digits r in (c :: d, r')
      else ([], s)
  end.

(** The grammar's [int] on the digits read: [0], or digits that do not
    start with [0]. *)
Definition int_digits (d : jsstring) : bool :=
  match d with
  | [] => false
  | c :: r => negb (c =? 48) || match r with [] => true | _ :: _ => false end
  end.

Definition parse_fraction (s : jsstring) : option (jsstring * jsstring) :=
  match s with
  | c :: r =>
      if c =? 46 then
        match span_digits r with
        | ([], _) => None
        | (fp, r') => Some (fp, r')
        end
      else Some ([], s)
  | [] => Some ([], s)
  end.

Definition parse_exponent (s : jsstring) : option (Z * jsstring) :=
  let digits (neg : bool) (r : jsstring) :=
    match span_digits r with
    | ([], _) => None
    | (e, r') =>
        Some (if neg then (- digits_value e)%Z else digits_value e, r')
    end in
  match s with
  | c :: r =>
      if (c =? 101) || (c =? 69) then
        match r with
        | d :: r' =>
            if d =? 43 then digits false r'
            else if d =? 45 then digits true r'
            else digits false r
        | [] => None
        end
      else Some (0%Z, s)
  | [] => Some (0%Z, s)
  end.

(** The Number value of the literal with the integer part [ip], the
    fraction [fp] and the exponent [e]: its mathematical value, rounded to
    the nearest double. *)
Definition number_value (neg : bool) (ip fp : jsstring) (e : Z) : json :=
  JNum (decimal_to_number neg (digits_value (ip ++ fp))
          (e - Z.of_nat (List.length fp))).

Definition parse_unsigned (neg : bool) (s : jsstring)
  : option (json * jsstring) :=
  let (ip, s2) := span_digits s in
  if int_digits ip then
    let* (fp, s3) := parse_fraction s2 in
    let* (e, s4) := parse_exponent s3 in
    Some (number_value neg ip fp e, s4)
  else None.

Definition parse_number (s : jsstring) : option (json * jsstring) :=
  match s with
  | c :: r => if c =? 45 then parse_unsigned true r else parse_unsigned false s
  | [] => None
  end.

(** *** Strings *)

Definition isHighSurrogate (c : N) : bool := (55296 <=? c) && (c <=? 56319).
Definition isLowSurrogate (c : N) : bool := (56320 <=? c) && (c <=? 57343).

Definition hexchar (d : N) : N := if d <? 10 then 48 + d else 87 + d.

(** UnicodeEscape: a backslash, [u] and four lower-case hex digits. *)
Definition unicodeEscape (c : N) : jsstring :=
  [92; 117; hexchar (c / 4096 mod 16); hexchar (c / 256 mod 16);
   hexchar (c / 16 mod 16); hexchar (c mod 16)].

Definition quoteUnit (c : N) : jsstring :=
  if c =? 8 then [92; 98]
  else if c =? 9 then [92; 116]
  else if c =? 10 then [92; 110]
  else if c =? 12 then [92; 102]
  else if c =? 13 then [92; 114]
  else if c =? 34 then [92; 34]
  else if c =? 92 then [92; 92]
  else if c <? 32 then unicodeEscape c
  else [c].

(** The body of QuoteJSONString: a surrogate that is not half of a pair is
    escaped; [prev] is the code unit before [s]. *)
Fixpoint quoteUnits (prev : option N) (s : jsstring) : jsstring :=
  match s with
  | [] => []
  | c :: r =>
      (if isHighSurrogate c then
         match r with
         | d :: _ => if isLowSurrogate d then [c] else unicodeEscape c
         | [] => unicodeEscape c
         end
       else if isLowSurrogate c then
         match prev with
         | Some p => if isHighSurrogate p then [c] else unicodeEscape c
         | None => unicodeEscape c
         end
       else quoteUnit c)
      ++ quoteUnits (Some c) r
  end.

Definition quote (s : jsstring) : jsstring :=
  34 :: quoteUnits None s ++ [34].

Definition hex_digit (c : N) : option N :=
  if (48 <=? c) && (c <=? 57) then Some (c - 48)
  else if (97 <=? c) && (c <=? 102) then Some (c - 87)
  else if (65 <=? c) && (c <=? 70) then Some (c - 55)
  else None.

Definition hex4 (a b c d : N) : option N :=
  let* x := hex_digit a in
  let* y := hex_digit b in
  let* z := hex_digit c in
  let* w := hex_digit d in
  Some (((x * 16 + y) * 16 + z) * 16 + w).

Definition unescape (e : N) : option N :=
  match e with
  | 34 => Some 34
  | 92 => Some 92
  | 47 => Some 47
  | 98 => Some 8
  | 102 => Some 12
  | 110 => Some 10
  | 114 => Some 13
  | 116 => Some 9
  | _ => None
  end.

(** The characters of a string literal after its opening quote, up to the
    closing quote. *)
Fixpoint parse_chars (s : jsstring) : option (jsstring * jsstring) :=
  match s with
  | [] => None
  | c :: r =>
      if c =? 34 then Some ([], r)
      else if c =? 92 then
        match r with
        | [] => None
        | e :: r1 =>
            if e =? 117 then
              match r1 with
              | h1 :: h2 :: h3 :: h4 :: r2 =>
                  let* u := hex4 h1 h2 h3 h4 in
                  let* (t, r3) := parse_chars r2 in
                  Some (u :: t, r3)
              | _ => None
              end
            else
              let* u := unescape e in
              let* (t, r3) := parse_chars r1 in
              Some (u :: t, r3)
        end
      else if c <? 32 then None
      else
        let* (t, r3) := parse_chars r in
        Some (c :: t, r3)
  end.

(** *** Objects *)

(** An array index: the canonical decimal string of an integer below
    2^32 - 1. *)
Definition array_index (k : jsstring) : option N :=
  match read_digits k with
  | (d, []) =>
      if int_ok d && (N.of_uint d <? 4294967295) then Some (N.of_uint d)
      else None
  | _ => None
  end.

Definition key_eqb (a b : jsstring) : bool := bool_decide (a = b).

Fixpoint has_key (k : jsstring) (o : list (jsstring * json)) : bool :=
  match o with
  | [] => false
  | (k', _) :: o' => key_eqb k' k || has_key k o'
  end.

Fixpoint replace_key (k : jsstring) (v : json) (o : list (jsstring * json))
  : list (jsstring * json) :=
  match o with
  | [] => []
  | (k', v') :: o' =>
      if key_eqb k' k then (k', v) :: o' else (k', v') :: replace_key k v o'
  end.

(** A new array-index key goes before the first key that is a larger
    index or no index at all. *)
Fixpoint insert_index (i : N) (k : jsstring) (v : json)
    (o : list (jsstring * json)) : list (jsstring * json) :=
  match o with
  | [] => [(k, v)]
  | (k', v') :: o' =>
      match array_index k' with
      | Some j =>
          if j <? i then (k', v') :: insert_index i k v o'
          else (k, v) :: o
      | None => (k, v) :: o
      end
  end.

(** CreateDataProperty on an ordinary object: an existing key keeps its
    place and takes the new value; new array indices are enumerated first,
    in ascending order; other new keys come last. *)
Definition obj_set (k : jsstring) (v : json) (o : list (jsstring * json))
  : list (jsstring * json) :=
  if has_key k o then replace_key k v o
  else
    match array_index k with
    | Some i => insert_index i k v o
    | None => o ++ [(k, v)]
    end.

(** *** JSON.stringify *)

Fixpoint join_comma (l : list jsstring) : jsstring :=
  match l with
  | [] => []
  | [x] => x
  | x :: l' => x ++ 44 :: join_comma l'
  end.

Fixpoint stringify (v : json) : jsstring :=
  match v with
  | JNull => str "null"
  | JBool true => str "true"
  | JBool false => str "false"
  | JNum x =>
      match x with
      | Finite _ _ _ => Number_toString x
      | _ => str "null"
      end
  | JStr s => quote s
  | JArr l => 91 :: join_comma (List.map stringify l) ++ [93]
  | JObj props =>
      123 :: join_comma
               (List.map (fun kv => quote (fst kv) ++ 58 :: stringify (snd kv))
                  props)
          ++ [125]
  end.

(** *** JSON.parse *)

Definition isJsonSpace (c : N) : bool :=
  (c =? 9) || (c =? 10) || (c =? 13) || (c =? 32).

Definition skip_ws (s : jsstring) : jsstring := dropWhile isJsonSpace s.

Fixpoint strip_prefix (p s : jsstring) : option jsstring :=
  match p, s with
  | [], _ => Some s
  | _ :: _, [] => None
  | a :: p', c :: s' => if c =? a then strip_prefix p' s' else None
  end.

Definition literal (rest : string) (v : json) (s : jsstring)
  : option (json * jsstring) :=
  let* r := strip_prefix (str rest) s in Some (v, r).

(** The input after the punctuator [c], white space before it skipped. *)
Definition expect (c : N) (s : jsstring) : option jsstring :=
  match skip_ws s with
  | d :: r => if d =? c then Some r else None
  | [] => None
  end.

(** The recursive descent over the grammar; [fuel] bounds the depth of the
    calls. Each function returns the value read and the input left. *)
Fixpoint parse_value (fuel : nat) (s : jsstring) : option (json * jsstring) :=
  match fuel with
  | O => None
  | S fuel =>
      match skip_ws s with
      | [] => None
      | c :: r =>
          if c =? 34 then
            let* (t, r') := parse_chars r in Some (JStr t, r')
          else if c =? 91 then
            match expect 93 r with
            | Some r' => Some (JArr [], r')
            | None =>
                let* (l, r') := parse_elements fuel r in Some (JArr l, r')
            end
          else if c =? 123 then
            match expect 125 r with
            | Some r' => Some (JObj [], r')
            | None =>
                let* (o, r') := parse_members fuel r [] in Some (JObj o, r')
            end
          else if c =? 116 then literal "rue" (JBool true) r
          else if c =? 102 then literal "alse" (JBool false) r
          else if c =? 110 then literal "ull" JNull r
          else parse_number (c :: r)
      end
  end

with parse_elements (fuel : nat) (s : jsstring)
  : option (list json * jsstring) :=
  match fuel with
  | O => None
  | S fuel =>
      let* (v, r) := parse_value fuel s in
      match expect 44 r with
      | Some r' => let* (l, r'') := parse_elements fuel r' in Some (v :: l, r'')
      | None =>
          match expect 93 r with
          | Some r' => Some ([v], r')
          | None => None
          end
      end
  end

with parse_members (fuel : nat) (s : jsstring) (o : list (jsstring * json))
  : option (list (jsstring * json) * jsstring) :=
  match fuel with
  | O => None
  | S fuel =>
      let* r := expect 34 s in
      let* (k, r1) := parse_chars r in
      let* r2 := expect 58 r1 in
      let* (v, r3) := parse_value fuel r2 in
      let o' := obj_set k v o in
      match expect 44 r3 with
      | Some r4 => parse_members fuel r4 o'
      | None =>
          match expect 125 r3 with
          | Some r4 => Some (o', r4)
          | None => None
          end
      end
  end.

(** [JSON.parse(text)]: one value, with white space around it and nothing
    else; [None] is the SyntaxError. The fuel is two calls for each code
    unit, which no text exhausts (lemma [parse_fuel_enough]). *)
Definition parse (text : jsstring) : option json :=
  let* (v, r) := parse_value (2 * length text + 2) text in
  match skip_ws r with
  | [] => Some v
  | _ :: _ => None
  end.

(** The input after a run of digits: it is over, or goes on with a code
    unit that is no digit. *)
Definition ends_digits (rest : jsstring) : Prop :=
  match rest with
  | [] => True
  | c :: _ => digit_of c = None
  end.

(** Every number in the value is a double. *)
Fixpoint numbers_are_doubles (v : json) : bool :=
  match v with
  | JNum x => is_double x
  | JArr l => forallb numbers_are_doubles l
  | JObj props => forallb (fun kv => numbers_are_doubles (snd kv)) props
  | _ => true
  end.

(** The numbers that [JSON.stringify] writes as themselves: the finite
    doubles other than negative zero. *)
Definition storable (x : number) : bool :=
  match x with
  | Finite neg m e => is_double x && negb (neg && (m =? 0)%Z)
  | _ => false
  end.

(** What may follow a number in a text: the end, or a code unit that
    continues no number. *)
Definition ends_number (rest : jsstring) : bool :=
  match rest with
  | [] => true
  | c :: _ => negb (isDigit c || (c =? 46) || (c =? 101) || (c =? 69))
  end.

Abbreviation digits l := (Forall (fun c => isDigit c = true) l).

(** The input after a run of digits of a number: no digit follows. *)
Definition stops (rest : jsstring) : Prop :=
  match rest with
  | [] => True
  | c :: _ => isDigit c = false
  end.

(** The parts of a number literal after the integer part: the fraction
    (none for no digits) and the exponent, with its sign and digits. *)
Definition fraction_text (fp : jsstring) : jsstring :=
  match fp with
  | [] => []
  | _ :: _ => 46 :: fp
  end.

Definition exponent_text (ex : option (bool * jsstring)) : jsstring :=
  match ex with
  | None => []
  | Some (sg, d) => 101 :: (if sg : bool then 45 else 43) :: d
  end.

Definition exponent_value (ex : option (bool * jsstring)) : Z :=
  match ex with
  | None => 0
  | Some (sg, d) => if sg : bool then - digits_value d else digits_value d
  end.

Definition exponent_ok (ex : option (bool * jsstring)) : Prop :=
  match ex with
  | None => True
  | Some (_, d) => digits d /\ d <> []
  end.

(** [chunk] is read as the one code unit [c] of a string literal. *)
Definition reads_as (chunk : jsstring) (c : N) : Prop :=
  forall tl,
    parse_chars (chunk ++ tl) =
    match parse_chars tl with
    | Some (t, r) => Some (c :: t, r)
    | None => None
    end.

(** [JSON.parse(text)] as the caller sees it. *)
Definition JSON_parse (text : jsstring) : completion json :=
  match parse text with
  | Some v => Return v
  | None => Throw
  end.

Definition JSON_stringify (v : json) : jsstring := stringify v.

(** Property lookup, [o[k]]. *)
Fixpoint get_prop (k : jsstring) (o : list (jsstring * json)) : option json :=
  match o with
  | [] => None
  | (k', v) :: o' => if key_eqb k' k then Some v else get_prop k o'
  end.

End JSON.

(** ** The component: chapter4/todo.jsx *)

Module TodoApp.
Import JS JSON.

(** A todo item, as [addTodo] builds it:
    [{ id: uid(), text: val, done: false, createdAt: Date.now() }];
    [Date.now()] is a number, the milliseconds since the epoch; a task
    read from the storage has the [createdAt] its text denotes. *)
Record Task := mkTask {
  id : jsstring;
  text : jsstring;
  done : bool;
  createdAt : number
}.

(** The keys of [FILTERS]. *)
Inductive FilterKey := all | active | completed.

(** [FILTERS[key].fn] *)
Definition FILTERS (key : FilterKey) (t : Task) : bool :=
  match key with
  | all => true
  | active => negb (done t)
  | completed => done t
  end.

(** The state variables of [TodoApp]. The input box's [text] is
    [inputText] here, since [text] names the field of a task. Each handler
    below maps the state of the render it is called in to the state of the
    next render. *)
Record State := mkState {
  todos : list Task;
  inputText : jsstring;
  filter : FilterKey;
  search : jsstring;
  editingId : option jsstring;
  editingText : jsstring
}.

Definition setTodos (l : list Task) (st : State) : State :=
  mkState l (inputText st) (filter st) (search st) (editingId st)
    (editingText st).

Definition setText (s : jsstring) (st : State) : State :=
  mkState (todos st) s (filter st) (search st) (editingId st)
    (editingText st).

Definition setFilter (k : FilterKey) (st : State) : State :=
  mkState (todos st) (inputText st) k (search st) (editingId st)
    (editingText st).

Definition setSearch (s : jsstring) (st : State) : State :=
  mkState (todos st) (inputText st) (filter st) s (editingId st)
    (editingText st).

Definition setEditingId (i : option jsstring) (st : State) : State :=
  mkState (todos st) (inputText st) (filter st) (search st) i
    (editingText st).

Definition setEditingText (s : jsstring) (st : State) : State :=
  mkState (todos st) (inputText st) (filter st) (search st) (editingId st) s.

(** [t.id === id] on strings. *)
Definition id_eqb (a b : jsstring) : bool := bool_decide (a = b).

Section Filtered.

(** [String.prototype.toLowerCase], a parameter of the development. *)
Variable toLowerCase : jsstring -> jsstring.

(** The memo [filtered]:
<<
    const byFilter = todos.filter(FILTERS[filter].fn);
    const q = search.trim().toLowerCase();
    return q ? byFilter.filter((t) => t.text.toLowerCase().includes(q))
             : byFilter;
>> *)
Definition filtered (st : State) : list Task :=
  let byFilter := List.filter (FILTERS (filter st)) (todos st) in
  let q := toLowerCase (trim (search st)) in
  if truthy q
  then List.filter (fun t => includes (toLowerCase (text t)) q) byFilter
  else byFilter.

(** The search of the specification, in its words: the trimmed query
    occurs in the task's text, letter case ignored. *)
Definition spec_matches (query : jsstring) (t : Task) : bool :=
  includes (toLowerCase (text t)) (toLowerCase (trim query)).

Definition spec_filteredView (k : FilterKey) (query : jsstring)
    (l : list Task) : list Task :=
  List.filter (fun t => FILTERS k t && spec_matches query t) l.

End Filtered.

(** The memo [stats]: [{ total, completed, active }]. *)
Module Stats.
Record t := mk { total : Z; completed : Z; active : Z }.
End Stats.

Definition stats (st : State) : Stats.t :=
  let total := Z.of_nat (length (todos st)) in
  let completed :=
    Z.of_nat (length (List.filter (fun t => done t) (todos st))) in
  let active := (total - completed)%Z in
  Stats.mk total completed active.

(** [addTodo], with the results of its calls [uid()] and [Date.now()]. *)
Definition addTodo (newId : jsstring) (now : number) (st : State) : State :=
  let val := trim (inputText st) in
  if negb (truthy val) then st
  else
    let newTodo := mkTask newId val false now in
    setText [] (setTodos (newTodo :: todos st) st).

Definition toggle (i : jsstring) (st : State) : State :=
  setTodos
    (List.map
       (fun t => if id_eqb (id t) i
                 then mkTask (id t) (text t) (negb (done t)) (createdAt t)
                 else t)
       (todos st))
    st.

Definition remove (i : jsstring) (st : State) : State :=
  setTodos (List.filter (fun t => negb (id_eqb (id t) i)) (todos st)) st.

Definition clearCompleted (st : State) : State :=
  setTodos (List.filter (fun t => negb (done t)) (todos st)) st.

Definition startEdit (todo : Task) (st : State) : State :=
  setEditingText (text todo) (setEditingId (Some (id todo)) st).

(** [!editingId]: [null] and the empty string are the falsy values an
    editing id can take. *)
Definition falsyId (i : option jsstring) : bool :=
  match i with
  | None => true
  | Some s => negb (truthy s)
  end.

(** [t.id === editingId] *)
Definition isEditing (st : State) (t : Task) : bool :=
  bool_decide (Some (id t) = editingId st).

Definition saveEdit (st : State) : State :=
  let val := trim (editingText st) in
  if falsyId (editingId st) then st
  else
    let st' :=
      if negb (truthy val)
      then (* empty -> delete *)
        setTodos (List.filter (fun t => negb (isEditing st t)) (todos st)) st
      else
        setTodos
          (List.map
             (fun t => if isEditing st t
                       then mkTask (id t) val (done t) (createdAt t)
                       else t)
             (todos st))
          st
    in
    setEditingText [] (setEditingId None st').

Definition cancelEdit (st : State) : State :=
  setEditingText [] (setEditingId None st).

Definition toggleAll (d : bool) (st : State) : State :=
  setTodos
    (List.map (fun t => mkTask (id t) (text t) d (createdAt t)) (todos st))
    st.

(** The operations of the store, as the user interface reaches them:
    typing into the input and pressing Enter; clicking a task's text,
    typing the new text and saving. *)
Definition add (rawText newId : jsstring) (now : number) (st : State)
  : State :=
  addTodo newId now (setText rawText st).

Definition edit (i newRawText : jsstring) (st : State) : State :=
  saveEdit (setEditingText newRawText (setEditingId (Some i) st)).

(** A run of [add] calls, each with its text and the id and time the
    platform gave it. *)
Definition AddCall : Type := jsstring * jsstring * number.

Definition add_all (calls : list AddCall) (st : State) : State :=
  fold_left (fun st c => let '(raw, newId, now) := c in add raw newId now st)
    calls st.

(** The calls that create a task, and the task each creates. *)
Definition creates (c : AddCall) : bool :=
  let '(raw, _, _) := c in truthy (trim raw).

Definition created (c : AddCall) : Task :=
  let '(raw, newId, now) := c in mkTask newId (trim raw) false now.

(** *** Persistence: the hook [useLocalStorage] *)

(** The JavaScript value of a task and of the list [todos]. *)
Definition task_json (t : Task) : json :=
  JObj [(str "id", JStr (id t)); (str "text", JStr (text t));
        (str "done", JBool (done t)); (str "createdAt", JNum (createdAt t))].

Definition todos_json (l : list Task) : json := JArr (List.map task_json l).

(** The text [JSON.stringify] writes for a task. *)
Definition task_text (t : Task) : jsstring := stringify (task_json t).

(** The initializer of the hook's state:
<<
    try {
      const raw = localStorage.getItem(key);
      return raw ? JSON.parse(raw) : initialValue;
    } catch {
      return initialValue;
    }
>> *)
Definition useLocalStorage_init (ls : Storage) (key : jsstring)
    (initialValue : json) : completion json :=
  try_catch
    (bind (getItem ls key) (fun raw =>
       match raw with
       | Some r => if truthy r then JSON_parse r else Return initialValue
       | None => Return initialValue
       end))
    (Return initialValue).

(** The hook's effect, run after each change of the value:
    [try { localStorage.setItem(key, JSON.stringify(value)); } catch {}] *)
Definition useLocalStorage_effect (ls : Storage) (key : jsstring)
    (value : json) : Storage :=
  match setItem ls key (JSON_stringify value) with
  | Return ls' => ls'
  | Throw => ls
  end.

(** [useLocalStorage("todos.v1", [])] *)
Definition todosKey : jsstring := str "todos.v1".

Definition load (ls : Storage) : completion json :=
  useLocalStorage_init ls todosKey (JArr []).

Definition persist (ls : Storage) (l : list Task) : Storage :=
  useLocalStorage_effect ls todosKey (todos_json l).

(** The persistence format in the specification's words: an array of
    objects, each with the fields [id] (string), [text] (string), [done]
    (boolean) and [createdAt] (number). *)
Definition spec_task_object (v : json) : bool :=
  match v with
  | JObj o =>
      match get_prop (str "id") o, get_prop (str "text") o,
            get_prop (str "done") o, get_prop (str "createdAt") o with
      | Some (JStr _), Some (JStr _), Some (JBool _), Some (JNum _) => true
      | _, _, _, _ => false
      end
  | _ => false
  end.

Definition spec_task_array (v : json) : bool :=
  match v with
  | JArr l => forallb spec_task_object l
  | _ => false
  end.

(** The stored text parses as this shape. *)
Definition spec_parses_as_tasks (raw : jsstring) : bool :=
  match JSON_parse raw with
  | Return v => spec_task_array v
  | Throw => false
  end.

(** *** The invariants of a task list, in the specification's words *)

Definition ids (l : list Task) : list jsstring := List.map id l.

Definition spec_invariant (l : list Task) : Prop :=
  List.NoDup (ids l) /\ Forall (fun t => trim (text t) <> []) l.

End TodoApp.

(** ** Concrete states and stores *)

Module Examples.
Import JS JSON TodoApp.

(** A list whose one task has the empty string as id, as a stored blob
    can hold it. *)
Definition st_empty_id : State :=
  mkState [mkTask [] (str "a") false (ms 0)] [] all [] None [].

Definition st_empty_id_pair : State :=
  mkState [mkTask [] (str "a") false (ms 0); mkTask (str "k") (str "b") true (ms 1)]
    [] all [] None [].

(** Two tasks, the second completed. *)
Definition st_two : State :=
  mkState [mkTask (str "t2") (str "Walk dog") false (ms 20);
           mkTask (str "t1") (str "Buy milk") true (ms 10)]
    [] all [] None [].

Definition st_none : State := mkState [] [] all [] None [].

(** A store without the key, and stores that hold under the key: text that
    is no JSON, and a JSON object that is no array of tasks. *)
Definition ls_fresh : Storage := mkStorage ∅ false 5000.

Definition ls_garbage : Storage :=
  mkStorage {[ todosKey := str "[{oops" ]} false 5000.

Definition ls_object : Storage :=
  mkStorage {[ todosKey := str "{}" ]} false 5000.

(** Two tasks with the same id, one of them completed, as a stored blob
    can hold them. *)
Definition st_same_id : State :=
  mkState [mkTask (str "a") (str "x") false (ms 1);
           mkTask (str "a") (str "y") true (ms 2)]
    [] all [] None [].

(** A task whose [createdAt] is Infinity, one whose [createdAt] is the
    negative zero, and a store whose blob gives the task the time [1e400],
    a number beyond the largest double. *)
Definition tasks_infinite : list Task :=
  [mkTask (str "a") (str "x") false (Infinite false)].

Definition tasks_negative_zero : list Task :=
  [mkTask (str "a") (str "x") false (Finite true 0 (-1074))].

(** Tasks whose times are no integers of milliseconds: [1e21], [-1.5] and
    [5e-324], the smallest positive double. *)
Definition tasks_odd_times : list Task :=
  [mkTask (str "a") (str "x") false (decimal_to_number false 1 21);
   mkTask (str "b") (str "y") true (decimal_to_number true 15 (-1));
   mkTask (str "c") (str "z") false (decimal_to_number false 5 (-324))].

Definition blob_overflow : jsstring :=
  [91; 123] ++ quote (str "id") ++ 58 :: quote (str "a") ++ 44 ::
  quote (str "text") ++ 58 :: quote (str "x") ++ 44 ::
  quote (str "done") ++ 58 :: str "false" ++ 44 ::
  quote (str "createdAt") ++ 58 :: str "1e400" ++ [125; 93].

Definition ls_overflow : Storage :=
  mkStorage {[ todosKey := blob_overflow ]} false 5000.

End Examples.

(** ** The component in use: ids, events and runs *)

Module Session.
Import JS JSON TodoApp.

(** [uid()]:
<<
    if (typeof crypto !== "undefined" && crypto.randomUUID)
      return crypto.randomUUID();
    return `t_${Date.now()}_${Math.random().toString(16).slice(2)}`;
>>
    [randomUUID] is the string [crypto.randomUUID()] returns where the
    platform has it; [now] is [Date.now()], written by the template literal
    in decimal; [random16] is the string [Math.random().toString(16)], of
    which [slice(2)] drops the first two code units. *)
Definition uid (randomUUID : option jsstring) (now : Z) (random16 : jsstring)
  : jsstring :=
  match randomUUID with
  | Some u => u
  | None =>
      str "t_" ++ number_to_string now 0 ++ str "_" ++ skipn 2 random16
  end.

(** The state of the first render, with the value [useLocalStorage] gave:
    [text = ""], [filter = "all"], [search = ""], [editingId = null],
    [editingText = ""]. *)
Definition initialState (loaded : list Task) : State :=
  mkState loaded [] all [] None [].

(** The events the markup wires to the handlers: typing in the three
    inputs, choosing a filter, and the buttons and keys that call
    [addTodo], [toggle], [remove], [clearCompleted], [startEdit],
    [saveEdit], [cancelEdit] and [toggleAll]. [AddTodo] carries what
    [uid()] and [Date.now()] return in the call. *)
Inductive Action :=
| SetText (s : jsstring)
| SetFilter (k : FilterKey)
| SetSearch (s : jsstring)
| SetEditingText (s : jsstring)
| AddTodo (newId : jsstring) (now : number)
| Toggle (i : jsstring)
| Remove (i : jsstring)
| ClearCompleted
| StartEdit (todo : Task)
| SaveEdit
| CancelEdit
| ToggleAll (d : bool).

Definition step (a : Action) (st : State) : State :=
  match a with
  | SetText s => setText s st
  | SetFilter k => setFilter k st
  | SetSearch s => setSearch s st
  | SetEditingText s => setEditingText s st
  | AddTodo newId now => addTodo newId now st
  | Toggle i => toggle i st
  | Remove i => remove i st
  | ClearCompleted => clearCompleted st
  | StartEdit todo => startEdit todo st
  | SaveEdit => saveEdit st
  | CancelEdit => cancelEdit st
  | ToggleAll d => toggleAll d st
  end.

(** The events of a session, one render after the other. *)
Definition run (acts : list Action) (st : State) : State :=
  fold_left (fun st a => step a st) acts st.

(** The ids [uid()] returned in the [addTodo] calls of a session. *)
Fixpoint supplied_ids (acts : list Action) : list jsstring :=
  match acts with
  | [] => []
  | AddTodo newId _ :: acts' => newId :: supplied_ids acts'
  | _ :: acts' => supplied_ids acts'
  end.

(** Every text is what [trim] returns, and is not empty. *)
Definition trimmed_texts (l : list Task) : Prop :=
  Forall (fun t => trim (text t) = text t /\ text t <> []) l.

(** The rows the markup shows as an input: those of the view with
    [editingId === todo.id]. *)
Definition editingRows (toLowerCase : jsstring -> jsstring) (st : State)
  : list Task :=
  List.filter (isEditing st) (filtered toLowerCase st).

(** A session: two tasks added, the first completed, a search typed. *)
Definition acts_two : list Action :=
  [SetText (str "Buy milk"); AddTodo (str "t1") (ms 10);
   SetText (str " Walk dog "); AddTodo (str "t2") (ms 20);
   Toggle (str "t1"); SetSearch (str "milk")].

End Session.

(** * Properties *)

Import JS JSON TodoApp Examples.

(** ** Strings *)

Lemma truthy_false (s : jsstring) : truthy s = false <-> s = [].
Proof. destruct s; simpl; split; congruence. Qed.

Lemma truthy_true (s : jsstring) : truthy s = true <-> s <> [].
Proof. destruct s; simpl; split; congruence. Qed.

Lemma dropWhile_suffix {A} (p : A -> bool) (l : list A) :
  exists pre, l = pre ++ dropWhile p l /\ forallb p pre = true.
Proof.
  induction l as [|x l [pre [E F]]]; simpl.
  - exists []. split; reflexivity.
  - destruct (p x) eqn:Px.
    + exists (x :: pre). simpl. rewrite Px, F. split; [now f_equal | reflexivity].
    + exists []. split; reflexivity.
Qed.

Lemma dropWhile_head {A} (p : A -> bool) (l : list A) (x : A) (r : list A) :
  dropWhile p l = x :: r -> p x = false.
Proof.
  induction l as [|y l IH]; simpl; [discriminate|].
  destruct (p y) eqn:Py; [exact IH|].
  intros E. injection E as -> _. exact Py.
Qed.

Lemma dropWhile_stuck {A} (p : A -> bool) (x : A) (r : list A) :
  p x = false -> dropWhile p (x :: r) = x :: r.
Proof. intros H. simpl. now rewrite H. Qed.

(** A trimmed string starts and ends with a code unit that is not white
    space, so trimming it again changes nothing. *)
Lemma trim_trim (s : jsstring) : trim (trim s) = trim s.
Proof.
  unfold trim, trimEnd, trimStart.
  remember (dropWhile isWhiteSpace s) as a eqn:Ha.
  destruct (dropWhile isWhiteSpace (rev a)) as [|y b] eqn:Eb; [reflexivity|].
  pose proof (dropWhile_head _ _ _ _ Eb) as Hy.
  destruct (dropWhile_suffix isWhiteSpace (rev a)) as [pre [E _]].
  rewrite Eb in E.
  assert (Ea : a = rev (y :: b) ++ rev pre).
  { rewrite <- rev_app_distr, <- E. now rewrite rev_involutive. }
  assert (Hstart : dropWhile isWhiteSpace (rev (y :: b)) = rev (y :: b)).
  { destruct (rev (y :: b)) as [|z c] eqn:Er.
    - reflexivity.
    - apply dropWhile_stuck.
      rewrite Ea in Ha. simpl in Ha. symmetry in Ha.
      exact (dropWhile_head _ _ _ _ Ha). }
  rewrite Hstart, rev_involutive.
  now rewrite (dropWhile_stuck _ _ _ Hy).
Qed.

Lemma startsWith_spec (s q : jsstring) :
  startsWith s q = true <-> exists post, s = q ++ post.
Proof.
  revert s. induction q as [|d q IH]; intros s; simpl.
  - split; [exists s; reflexivity | reflexivity].
  - destruct s as [|c s]; simpl.
    + split; [discriminate | intros [post E]; discriminate].
    + rewrite andb_true_iff, N.eqb_eq, IH. split.
      * intros [-> [post ->]]. now exists post.
      * intros [post E]. injection E as -> ->. split; [reflexivity | now exists post].
Qed.

(** [includes] finds exactly the contiguous occurrences. *)
Lemma includes_spec (s q : jsstring) :
  includes s q = true <-> exists pre post, s = pre ++ q ++ post.
Proof.
  induction s as [|c s IH]; simpl.
  - rewrite orb_false_r, startsWith_spec. split.
    + intros [post E]. now exists [], post.
    + intros [pre [post E]]. destruct pre; [now exists post|discriminate].
  - rewrite orb_true_iff, startsWith_spec, IH. split.
    + intros [[post E] | [pre [post E]]].
      * now exists [], post.
      * exists (c :: pre), post. simpl. now f_equal.
    + intros [pre [post E]]. destruct pre as [|x pre]; simpl in E.
      * left. now exists post.
      * right. injection E as _ ->. now exists pre, post.
Qed.

Lemma includes_empty (s : jsstring) : includes s [] = true.
Proof. apply includes_spec. now exists [], s. Qed.

(** ** Lists of tasks *)

Lemma Forall2_map_self {A} (R : A -> A -> Prop) (f : A -> A) (l : list A) :
  (forall a, R a (f a)) -> Forall2 R l (List.map f l).
Proof. intros H. induction l; simpl; constructor; auto. Qed.

Lemma map_id_on {A} (f : A -> A) (l : list A) :
  (forall a, In a l -> f a = a) -> List.map f l = l.
Proof.
  induction l as [|a l IH]; simpl; intros H; [reflexivity|].
  rewrite H by now left. f_equal. apply IH. intros b Hb. apply H. now right.
Qed.

Lemma setTodos_same (st : State) : setTodos (todos st) st = st.
Proof. now destruct st. Qed.

Lemma id_eqb_eq (a b : jsstring) : id_eqb a b = true <-> a = b.
Proof. unfold id_eqb. apply bool_decide_eq_true. Qed.

Lemma id_eqb_neq (a b : jsstring) : id_eqb a b = false <-> a <> b.
Proof. unfold id_eqb. apply bool_decide_eq_false. Qed.

Lemma in_ids (i : jsstring) (l : list Task) :
  In i (ids l) <-> exists t, In t l /\ id t = i.
Proof.
  unfold ids. rewrite in_map_iff. split; intros [t [H1 H2]]; exists t; auto.
Qed.

(** ** Adding *)

Lemma todos_add (raw newId : jsstring) (now : number) (st : State) :
  todos (add raw newId now st) =
  if creates (raw, newId, now) then created (raw, newId, now) :: todos st
  else todos st.
Proof.
  unfold add, addTodo, creates, created. simpl.
  destruct (truthy (trim raw)); reflexivity.
Qed.

Lemma todos_add_all (calls : list AddCall) (st : State) :
  todos (add_all calls st) =
  rev (List.map created (List.filter creates calls)) ++ todos st.
Proof.
  revert st. induction calls as [|[[raw newId] now] calls IH]; intros st.
  - reflexivity.
  - change (add_all ((raw, newId, now) :: calls) st)
      with (add_all calls (add raw newId now st)).
    rewrite IH, todos_add. cbn [List.filter].
    destruct (creates (raw, newId, now)); [|reflexivity].
    cbn [List.map rev]. now rewrite <- app_assoc.
Qed.

(** C2. [add] trims its argument; a blank argument leaves the list as it
    is, any other puts the new task (the generated id, the trimmed text,
    [done = false], the current time) in front. After a run of calls the
    list holds, before the tasks it started with, the tasks of the calls
    whose argument was not blank, the latest call's first; started on the
    empty list, its length is the number of those calls. *)
Theorem add_prepends_newest_first (st : State) :
  (forall raw newId now,
     trim raw = [] -> todos (add raw newId now st) = todos st) /\
  (forall raw newId now,
     trim raw <> [] ->
     todos (add raw newId now st) =
     mkTask newId (trim raw) false now :: todos st) /\
  (forall calls,
     todos (add_all calls st) =
     rev (List.map created (List.filter creates calls)) ++ todos st) /\
  (forall calls,
     todos st = [] ->
     length (todos (add_all calls st)) = length (List.filter creates calls)).
Proof.
  repeat split.
  - intros raw newId now H. rewrite todos_add. unfold creates.
    now rewrite (proj2 (truthy_false _) H).
  - intros raw newId now H. rewrite todos_add. unfold creates, created.
    now rewrite (proj2 (truthy_true _) H).
  - intros calls. apply todos_add_all.
  - intros calls H. rewrite todos_add_all, H, app_nil_r.
    now rewrite length_rev, length_map.
Qed.

(** ** Toggling *)

Lemma toggle_task_twice (i : jsstring) (t : Task) :
  let f := fun t : Task =>
             if id_eqb (id t) i
             then mkTask (id t) (text t) (negb (done t)) (createdAt t)
             else t in
  f (f t) = t.
Proof.
  simpl. destruct (id_eqb (id t) i) eqn:E; simpl; rewrite E.
  - destruct t; simpl. now rewrite negb_involutive.
  - reflexivity.
Qed.

(** C7. [toggle(id)] negates [done] on the tasks whose id is [id] and
    changes nothing else; with no such task the state is unchanged; done
    twice, it gives back the state it started from. *)
Theorem toggle_flips_and_undoes_itself (i : jsstring) (st : State) :
  Forall2
    (fun t t' =>
       id t' = id t /\ text t' = text t /\ createdAt t' = createdAt t /\
       done t' = if bool_decide (id t = i) then negb (done t) else done t)
    (todos st) (todos (toggle i st)) /\
  (~ In i (ids (todos st)) -> toggle i st = st) /\
  toggle i (toggle i st) = st.
Proof.
  repeat split.
  - unfold toggle. simpl. apply Forall2_map_self. intros t.
    fold (id_eqb (id t) i). destruct (id_eqb (id t) i); simpl; auto.
  - intros H. unfold toggle. rewrite map_id_on; [apply setTodos_same|].
    intros t Ht. destruct (id_eqb (id t) i) eqn:E; [|reflexivity].
    exfalso. apply H. apply in_ids. exists t. split; [exact Ht|].
    now apply id_eqb_eq.
  - unfold toggle at 1. unfold toggle at 2. simpl todos at 1.
    unfold toggle. simpl. rewrite map_map.
    rewrite map_id_on; [now destruct st|].
    intros t _. apply (toggle_task_twice i t).
Qed.

(** ** Toggle-all and the counts *)

Lemma filter_all {A} (p : A -> bool) (l : list A) :
  (forall a, In a l -> p a = true) -> List.filter p l = l.
Proof.
  induction l as [|a l IH]; simpl; intros H; [reflexivity|].
  rewrite H by now left. f_equal. apply IH. intros b Hb. apply H. now right.
Qed.

Lemma filter_none {A} (p : A -> bool) (l : list A) :
  (forall a, In a l -> p a = false) -> List.filter p l = [].
Proof.
  induction l as [|a l IH]; simpl; intros H; [reflexivity|].
  rewrite H by now left. apply IH. intros b Hb. apply H. now right.
Qed.

(** C6. [toggleAll(b)] gives every task [done = b], whatever it was, and
    changes nothing else; after [toggleAll(true)] the active count of
    [stats] is 0, after [toggleAll(false)] its completed count is 0. *)
Theorem toggleAll_sets_every_task (b : bool) (st : State) :
  Forall2
    (fun t t' =>
       id t' = id t /\ text t' = text t /\ createdAt t' = createdAt t /\
       done t' = b)
    (todos st) (todos (toggleAll b st)) /\
  Stats.active (stats (toggleAll true st)) = 0%Z /\
  Stats.completed (stats (toggleAll false st)) = 0%Z.
Proof.
  repeat split.
  - unfold toggleAll. simpl. apply Forall2_map_self. intros t. simpl. auto.
  - unfold stats, toggleAll. simpl. rewrite filter_all; [lia|].
    intros t Ht. apply in_map_iff in Ht. destruct Ht as [u [<- _]]. reflexivity.
  - unfold stats, toggleAll. simpl. rewrite filter_none; [reflexivity|].
    intros t Ht. apply in_map_iff in Ht. destruct Ht as [u [<- _]]. reflexivity.
Qed.

(** ** Removing and editing *)

Lemma todos_remove (i : jsstring) (st : State) :
  todos (remove i st) =
  List.filter (fun t => bool_decide (id t <> i)) (todos st).
Proof.
  unfold remove. simpl. apply filter_ext. intros t. unfold id_eqb.
  now rewrite bool_decide_not.
Qed.

Lemma todos_edit_empty_id (new : jsstring) (st : State) :
  todos (edit [] new st) = todos st.
Proof. reflexivity. Qed.

Lemma isEditing_eq (i new : jsstring) (st : State) (t : Task) :
  isEditing (setEditingText new (setEditingId (Some i) st)) t
  = bool_decide (id t = i).
Proof.
  unfold isEditing. simpl. apply bool_decide_ext.
  split; [now intros [= ->] | now intros ->].
Qed.

Lemma todos_edit (i new : jsstring) (st : State) :
  i <> [] ->
  todos (edit i new st) =
  if truthy (trim new)
  then List.map
         (fun t => if bool_decide (id t = i)
                   then mkTask (id t) (trim new) (done t) (createdAt t)
                   else t)
         (todos st)
  else List.filter (fun t => bool_decide (id t <> i)) (todos st).
Proof.
  intros Hi. destruct i as [|c i]; [congruence|].
  unfold edit, saveEdit. cbn [editingId setEditingText setEditingId falsyId
                               truthy negb editingText].
  destruct (truthy (trim new)); cbn [negb todos setTodos setEditingText
                                      setEditingId].
  - apply map_ext. intros t. now rewrite isEditing_eq.
  - apply filter_ext. intros t. rewrite isEditing_eq.
    now rewrite bool_decide_not.
Qed.

(** The same, for the empty id as well when no task has it. *)
Lemma todos_edit_matching (i new : jsstring) (st : State) :
  i <> [] \/ ~ In [] (ids (todos st)) ->
  todos (edit i new st) =
  if truthy (trim new)
  then List.map
         (fun t => if bool_decide (id t = i)
                   then mkTask (id t) (trim new) (done t) (createdAt t)
                   else t)
         (todos st)
  else List.filter (fun t => bool_decide (id t <> i)) (todos st).
Proof.
  intros Hi.
  assert (Hne : i = [] ->
                forall t, In t (todos st) -> bool_decide (id t = i) = false).
  { intros -> t Ht. apply bool_decide_eq_false. intros E.
    destruct Hi as [Hi|Hi]; [congruence|]. apply Hi.
    apply in_ids. now exists t. }
  destruct i as [|c i]; [|apply todos_edit; discriminate].
  specialize (Hne eq_refl). rewrite todos_edit_empty_id.
  destruct (truthy (trim new)); symmetry.
  - apply map_id_on. intros t Ht. now rewrite (Hne t Ht).
  - apply filter_all. intros t Ht. rewrite bool_decide_not.
    now rewrite (Hne t Ht).
Qed.

(** With the empty string as id, [edit] to a blank text leaves the task
    that [remove] deletes. *)
Lemma edit_empty_id_is_not_remove :
  todos (edit [] [] st_empty_id) <> todos (remove [] st_empty_id).
Proof. vm_compute. discriminate. Qed.

(** C3. Provided the id is not the empty string, or no task of the list
    has the empty string as id: [edit] trims the new text; a blank text
    changes the list just as [remove(id)] does; any other text replaces
    [text] on the tasks with that id and leaves their [id], [done] and
    [createdAt], and every other task, as they were; with no task of that
    id the list is unchanged. With the empty string as id (which [saveEdit]
    takes for "not editing"), [edit] always leaves the list unchanged. *)
Theorem edit_trims_replaces_or_removes (i new : jsstring) (st : State) :
  (i <> [] \/ ~ In [] (ids (todos st)) ->
   (trim new = [] -> todos (edit i new st) = todos (remove i st)) /\
   (trim new <> [] ->
    Forall2
      (fun t t' =>
         id t' = id t /\ done t' = done t /\ createdAt t' = createdAt t /\
         text t' = if bool_decide (id t = i) then trim new else text t)
      (todos st) (todos (edit i new st))) /\
   (~ In i (ids (todos st)) -> todos (edit i new st) = todos st)) /\
  (i = [] -> todos (edit i new st) = todos st).
Proof.
  split; [|intros ->; apply todos_edit_empty_id].
  intros Hi. rewrite (todos_edit_matching i new st Hi). repeat split.
  - intros H. rewrite (proj2 (truthy_false _) H). now rewrite todos_remove.
  - intros H. rewrite (proj2 (truthy_true _) H).
    apply Forall2_map_self. intros t.
    destruct (bool_decide (id t = i)); simpl; auto.
  - intros H.
    assert (Hne : forall t, In t (todos st) -> bool_decide (id t = i) = false).
    { intros t Ht. apply bool_decide_eq_false. intros E. apply H.
      apply in_ids. now exists t. }
    destruct (truthy (trim new)).
    + apply map_id_on. intros t Ht. now rewrite (Hne t Ht).
    + apply filter_all. intros t Ht. rewrite bool_decide_not.
      now rewrite (Hne t Ht).
Qed.

(** With the empty string as id, [edit] does not touch the task that has
    this id. *)
Lemma edit_empty_id_modifies_nothing :
  In [] (ids (todos st_empty_id_pair)) /\
  ~ Forall (fun t => id t = [] -> text t = str "z")
      (todos (edit [] (str "z") st_empty_id_pair)).
Proof.
  split; [now left|].
  intros H. apply Forall_inv in H. specialize (H eq_refl).
  vm_compute in H. discriminate.
Qed.

(** C10. [toggle(id)] and [remove(id)], and [edit(id, text)] provided the
    id is not the empty string or no task of the list has the empty string
    as id, change or delete the tasks whose id is [id], all of them, and no
    other: the tasks that stay keep their order, the others keep every
    field; [toggle] changes [done] alone and [edit] changes [text] alone.
    With the empty string as id, [edit] always leaves the list unchanged. *)
Theorem id_keyed_mutations_frame (i : jsstring) (st : State) :
  Forall2
    (fun t t' =>
       if bool_decide (id t = i)
       then t' = mkTask (id t) (text t) (negb (done t)) (createdAt t)
       else t' = t)
    (todos st) (todos (toggle i st)) /\
  todos (remove i st) =
    List.filter (fun t => bool_decide (id t <> i)) (todos st) /\
  (forall new,
     i <> [] \/ ~ In [] (ids (todos st)) ->
     (trim new = [] ->
      todos (edit i new st) =
        List.filter (fun t => bool_decide (id t <> i)) (todos st)) /\
     (trim new <> [] ->
      Forall2
        (fun t t' =>
           if bool_decide (id t = i)
           then t' = mkTask (id t) (trim new) (done t) (createdAt t)
           else t' = t)
        (todos st) (todos (edit i new st)))) /\
  (forall new, i = [] -> todos (edit i new st) = todos st).
Proof.
  repeat split.
  - unfold toggle. simpl. apply Forall2_map_self. intros t.
    fold (id_eqb (id t) i). now destruct (id_eqb (id t) i).
  - apply todos_remove.
  - intros Hn. rewrite (todos_edit_matching i new st H).
    now rewrite (proj2 (truthy_false _) Hn).
  - intros Hn. rewrite (todos_edit_matching i new st H).
    rewrite (proj2 (truthy_true _) Hn).
    apply Forall2_map_self. intros t. now destruct (bool_decide (id t = i)).
  - intros new ->. apply todos_edit_empty_id.
Qed.

(** ** The invariants *)

Lemma ids_map_keeps (f : Task -> Task) (l : list Task) :
  (forall t, id (f t) = id t) -> ids (List.map f l) = ids l.
Proof.
  intros H. unfold ids. rewrite map_map. apply map_ext. exact H.
Qed.

Lemma NoDup_ids_filter (p : Task -> bool) (l : list Task) :
  List.NoDup (ids l) -> List.NoDup (ids (List.filter p l)).
Proof.
  unfold ids. induction l as [|t l IH]; simpl; intros H; [constructor|].
  apply NoDup_cons_iff in H. destruct H as [Hin Hnd].
  destruct (p t); simpl; [|now apply IH].
  apply NoDup_cons_iff. split; [|now apply IH].
  intros Hc. apply Hin. apply in_map_iff in Hc.
  destruct Hc as [u [E Hu]]. apply filter_In in Hu.
  apply in_map_iff. exists u. tauto.
Qed.

Lemma NoDup_ids_inj (l : list Task) (a b : Task) :
  List.NoDup (ids l) -> In a l -> In b l -> id a = id b -> a = b.
Proof.
  unfold ids. induction l as [|t l IH]; simpl; intros H Ha Hb E; [tauto|].
  apply NoDup_cons_iff in H. destruct H as [Hin Hnd].
  destruct Ha as [->|Ha], Hb as [->|Hb]; auto.
  - exfalso. apply Hin. rewrite E. now apply in_map.
  - exfalso. apply Hin. rewrite <- E. now apply in_map.
Qed.

Lemma nonblank_filter (p : Task -> bool) (l : list Task) :
  Forall (fun t => trim (text t) <> []) l ->
  Forall (fun t => trim (text t) <> []) (List.filter p l).
Proof.
  rewrite !List.Forall_forall. intros H t Ht. apply filter_In in Ht. apply H, Ht.
Qed.

Lemma nonblank_map (f : Task -> Task) (l : list Task) :
  (forall t, trim (text t) <> [] -> trim (text (f t)) <> []) ->
  Forall (fun t => trim (text t) <> []) l ->
  Forall (fun t => trim (text t) <> []) (List.map f l).
Proof.
  intros Hf. rewrite !List.Forall_forall. intros H t Ht.
  apply in_map_iff in Ht. destruct Ht as [u [<- Hu]]. apply Hf, H, Hu.
Qed.

Lemma invariant_filter (p : Task -> bool) (l : list Task) :
  spec_invariant l -> spec_invariant (List.filter p l).
Proof.
  intros [H1 H2]. split; [now apply NoDup_ids_filter | now apply nonblank_filter].
Qed.

Lemma invariant_map (f : Task -> Task) (l : list Task) :
  (forall t, id (f t) = id t) ->
  (forall t, trim (text t) <> [] -> trim (text (f t)) <> []) ->
  spec_invariant l -> spec_invariant (List.map f l).
Proof.
  intros Hid Htext [H1 H2]. split.
  - now rewrite ids_map_keeps.
  - now apply nonblank_map.
Qed.

(** C4. Each of [add], [toggle], [remove], [edit], [clearCompleted] and
    [toggleAll] keeps the invariants of the list: the ids are pairwise
    distinct ([add] being given an id that no task of the list has), and no
    task has a text that is blank. *)
Theorem mutations_preserve_invariants (st : State) :
  spec_invariant (todos st) ->
  (forall raw newId now,
     ~ In newId (ids (todos st)) ->
     spec_invariant (todos (add raw newId now st))) /\
  (forall i, spec_invariant (todos (toggle i st))) /\
  (forall i, spec_invariant (todos (remove i st))) /\
  (forall i new, spec_invariant (todos (edit i new st))) /\
  spec_invariant (todos (clearCompleted st)) /\
  (forall b, spec_invariant (todos (toggleAll b st))).
Proof.
  intros Inv. split; [|split; [|split; [|split; [|split]]]].
  - intros raw newId now Hfresh. rewrite todos_add. unfold creates, created.
    destruct (truthy (trim raw)) eqn:E; [|exact Inv].
    destruct Inv as [H1 H2]. split.
    + simpl. now constructor.
    + constructor; [|exact H2]. simpl. rewrite trim_trim.
      now apply truthy_true.
  - intros i. unfold toggle. simpl. apply invariant_map; [| |exact Inv].
    + intros t. now destruct (id_eqb (id t) i).
    + intros t Ht. now destruct (id_eqb (id t) i).
  - intros i. unfold remove. simpl. now apply invariant_filter.
  - intros i new. destruct i as [|c i]; [exact Inv|].
    rewrite todos_edit by discriminate.
    destruct (truthy (trim new)) eqn:E; [|now apply invariant_filter].
    apply invariant_map; [| |exact Inv].
    + intros t. now destruct (bool_decide (id t = c :: i)).
    + intros t Ht. destruct (bool_decide (id t = c :: i)); [|exact Ht].
      simpl. rewrite trim_trim. now apply truthy_true.
  - unfold clearCompleted. simpl. now apply invariant_filter.
  - intros b. unfold toggleAll. simpl. now apply invariant_map.
Qed.

(** ** The filtered view *)

Lemma filter_filter_andb {A} (p q : A -> bool) (l : list A) :
  List.filter q (List.filter p l) = List.filter (fun a => p a && q a) l.
Proof.
  induction l as [|a l IH]; simpl; [reflexivity|].
  destruct (p a); simpl; [|exact IH].
  destruct (q a); now rewrite IH.
Qed.

Lemma filter_sublist {A} (p : A -> bool) (l : list A) :
  sublist (List.filter p l) l.
Proof.
  induction l as [|a l IH]; simpl; [constructor|].
  destruct (p a); now constructor.
Qed.

(** C5. The view [filtered] holds the tasks of the list that pass the
    chosen filter and whose lower-cased text contains the lower-cased
    trimmed query, in the order of the list; a query that is blank selects
    every task that passes the filter. It is a function of the state and
    returns a list: the state is not changed. *)
Theorem filtered_is_filter_and_search
    (toLowerCase : jsstring -> jsstring) (st : State) :
  filtered toLowerCase st =
    spec_filteredView toLowerCase (filter st) (search st) (todos st) /\
  (forall t,
     In t (filtered toLowerCase st) <->
     In t (todos st) /\ FILTERS (filter st) t = true /\
     exists pre post,
       toLowerCase (text t) = pre ++ toLowerCase (trim (search st)) ++ post) /\
  sublist (filtered toLowerCase st) (todos st) /\
  (toLowerCase [] = [] ->
   trim (search st) = [] ->
   filtered toLowerCase st = List.filter (FILTERS (filter st)) (todos st)).
Proof.
  assert (E : filtered toLowerCase st =
              spec_filteredView toLowerCase (filter st) (search st) (todos st)).
  { unfold filtered, spec_filteredView, spec_matches.
    destruct (truthy (toLowerCase (trim (search st)))) eqn:Hq.
    - apply filter_filter_andb.
    - apply truthy_false in Hq. rewrite Hq. apply filter_ext. intros t.
      now rewrite includes_empty, andb_true_r. }
  repeat apply conj.
  - exact E.
  - intros t. rewrite E. unfold spec_filteredView, spec_matches.
    rewrite filter_In, andb_true_iff, includes_spec. tauto.
  - rewrite E. apply filter_sublist.
  - intros H0 Hq. unfold filtered. now rewrite Hq, H0.
Qed.

(** Where two tasks have the same id, one of them completed and the other
    not, that id is in the view under Active and in the view under
    Completed: the two sets of ids are not disjoint. Nothing in the
    component keeps such a list out of its state: it is what [load] gives
    for a stored blob that holds it. *)
Lemma shared_id_is_in_both_views :
  let view k := filtered asciiLower (setSearch [] (setFilter k st_same_id)) in
  let idset (l : list Task) : gset (list N) := list_to_set (ids l) in
  load (persist ls_fresh (todos st_same_id))
  = Return (todos_json (todos st_same_id)) /\
  ids (view active) = [str "a"] /\
  ids (view completed) = [str "a"] /\
  ~ idset (view active) ## idset (view completed).
Proof.
  intros view idset.
  assert (Ea : ids (view active) = [str "a"]) by reflexivity.
  assert (Ec : ids (view completed) = [str "a"]) by reflexivity.
  split; [vm_compute; reflexivity|]. split; [exact Ea|]. split; [exact Ec|].
  intros H. apply (H (str "a")); unfold idset; rewrite ?Ea, ?Ec;
    apply elem_of_list_to_set; constructor.
Qed.

(** C8. The views under the filter Active and under the filter Completed,
    both with the empty query: in a list whose ids are pairwise distinct
    (the invariant of a task list) their sets of ids have no id in common;
    and together they are the set of the ids of the list. *)
Theorem active_completed_partition_ids
    (toLowerCase : jsstring -> jsstring) (st : State) :
  toLowerCase [] = [] ->
  let view k := filtered toLowerCase (setSearch [] (setFilter k st)) in
  let idset (l : list Task) : gset (list N) := list_to_set (ids l) in
  (List.NoDup (ids (todos st)) ->
   idset (view active) ## idset (view completed)) /\
  idset (view active) ∪ idset (view completed) = idset (todos st).
Proof.
  intros H0 view idset.
  assert (Hv : forall k, view k = List.filter (FILTERS k) (todos st)).
  { intros k. unfold view, filtered.
    cbn [search setSearch setFilter todos filter].
    change (trim []) with (@nil N). now rewrite H0. }
  assert (Hin : forall k i,
             i ∈ idset (view k) <->
             exists t, In t (todos st) /\ FILTERS k t = true /\ id t = i).
  { intros k i. unfold idset. rewrite elem_of_list_to_set, list_elem_of_In.
    rewrite in_ids, Hv. split.
    - intros [t [Ht E]]. apply filter_In in Ht. exists t. tauto.
    - intros [t [Ht [Hf E]]]. exists t. split; [|exact E].
      apply filter_In. tauto. }
  split.
  - intros Hnd i Ha Hc. apply Hin in Ha, Hc.
    destruct Ha as [a [Ha [Fa Ea]]], Hc as [c [Hc [Fc Ec]]].
    assert (a = c) by (eapply NoDup_ids_inj; eauto; congruence).
    subst c. simpl in Fa, Fc. rewrite Fc in Fa. discriminate.
  - apply set_eq. intros i. rewrite elem_of_union, !Hin.
    unfold idset. rewrite elem_of_list_to_set, list_elem_of_In, in_ids.
    split.
    + intros [[t [Ht [_ E]]] | [t [Ht [_ E]]]]; now exists t.
    + intros [t [Ht E]]. destruct (done t) eqn:D.
      * right. exists t. simpl. tauto.
      * left. exists t. simpl. rewrite D. tauto.
Qed.

(** ** Numbers and strings of JSON *)

Lemma read_digits_units (d : Decimal.uint) (rest : jsstring) :
  ends_digits rest -> read_digits (units_of_uint d ++ rest) = (d, rest).
Proof.
  intros H. induction d; cbn [units_of_uint app];
    try (cbn [read_digits digit_of]; cbv iota beta; now rewrite IHd).
  destruct rest as [|c r]; [reflexivity|].
  cbn [read_digits]. simpl in H. now rewrite H.
Qed.

Lemma int_ok_to_uint (a : N) : int_ok (N.to_uint a) = true.
Proof.
  rewrite <- (DecimalN.Unsigned.of_to a) at 1.
  rewrite DecimalN.Unsigned.to_of.
  generalize (N.to_uint a). intros d. unfold Decimal.unorm.
  induction d; try reflexivity. simpl.
  destruct (Decimal.nzhead d); try reflexivity; exact IHd.
Qed.

Lemma units_head (d : Decimal.uint) :
  d <> Decimal.Nil ->
  exists c r, units_of_uint d = c :: r /\ 48 <= c <= 57.
Proof.
  destruct d; [congruence| ..]; intros _; eexists _, _; (split; [reflexivity|lia]).
Qed.

Lemma to_uint_not_nil (a : N) : N.to_uint a <> Decimal.Nil.
Proof.
  intros E. pose proof (int_ok_to_uint a) as H. rewrite E in H. discriminate.
Qed.

(** *** Digits *)

Lemma digits_value_acc_app (l1 l2 : jsstring) (a : Z) :
  digits_value_acc (l1 ++ l2) a = digits_value_acc l2 (digits_value_acc l1 a).
Proof. revert a. induction l1 as [|c l1 IH]; intros a; simpl; auto. Qed.

Lemma digits_value_zeros (k : nat) (a : Z) :
  digits_value_acc (repeat 48 k) a = (a * 10 ^ Z.of_nat k)%Z.
Proof.
  revert a. induction k as [|k IH]; intros a.
  - simpl. lia.
  - cbn [repeat digits_value_acc]. rewrite IH.
    rewrite Nat2Z.inj_succ, Z.pow_succ_r by lia.
    change (Z.of_N 48) with 48%Z. lia.
Qed.

Lemma isDigit_zeros (k : nat) :
  Forall (fun c => isDigit c = true) (repeat 48 k).
Proof. induction k; constructor; auto. Qed.

Lemma digits_acc_spec (f : nat) (z : Z) (acc : jsstring) :
  (0 <= z < 10 ^ Z.of_nat (S f))%Z ->
  exists c ds,
    digits_acc f z acc = (c :: ds) ++ acc /\
    Forall (fun c => isDigit c = true) (c :: ds) /\
    digits_value (c :: ds) = z /\
    ((0 < z)%Z -> c <> 48).
Proof.
  revert z acc. induction f as [|f IH]; intros z acc Hz.
  - assert (Hz' : (0 <= z < 10)%Z) by (change (10 ^ Z.of_nat 1)%Z with 10%Z in Hz; lia).
    cbn [digits_acc].
    exists (Z.to_N (48 + z mod 10)), []. rewrite Z.mod_small by lia.
    repeat split.
    + constructor; [|constructor]. unfold isDigit.
      apply andb_true_iff. split; apply N.leb_le; lia.
    + unfold digits_value. cbn [digits_value_acc]. lia.
    + lia.
  - cbn [digits_acc]. destruct (Z.ltb_spec z 10) as [Hlt|Hge].
    + exists (Z.to_N (48 + z mod 10)), []. rewrite Z.mod_small by lia.
      repeat split.
      * constructor; [|constructor]. unfold isDigit.
        apply andb_true_iff. split; apply N.leb_le; lia.
      * unfold digits_value. cbn [digits_value_acc]. lia.
      * lia.
    + assert (Hq : (0 <= z / 10 < 10 ^ Z.of_nat (S f))%Z).
      { split; [apply Z.div_pos; lia|].
        apply Z.div_lt_upper_bound; [lia|].
        rewrite <- Z.pow_succ_r by lia. rewrite <- Nat2Z.inj_succ. lia. }
      destruct (IH (z / 10)%Z (Z.to_N (48 + z mod 10) :: acc) Hq)
        as [c [ds [E [Hd [Hv Hc]]]]].
      exists c, (ds ++ [Z.to_N (48 + z mod 10)]). repeat split.
      * rewrite E. cbn [app]. now rewrite <- app_assoc.
      * change (c :: ds ++ [Z.to_N (48 + z mod 10)])
          with ((c :: ds) ++ [Z.to_N (48 + z mod 10)]).
        apply List.Forall_app. split; [exact Hd|].
        constructor; [|constructor]. unfold isDigit.
        pose proof (Z.mod_pos_bound z 10 ltac:(lia)).
        apply andb_true_iff. split; apply N.leb_le; lia.
      * change (c :: ds ++ [Z.to_N (48 + z mod 10)])
          with ((c :: ds) ++ [Z.to_N (48 + z mod 10)]).
        unfold digits_value in *. rewrite digits_value_acc_app, Hv.
        cbn [digits_value_acc].
        pose proof (Z.mod_pos_bound z 10 ltac:(lia)).
        pose proof (Z.div_mod z 10 ltac:(lia)). lia.
      * intros _. apply Hc. apply Z.div_str_pos. lia.
Qed.

Lemma digits_of_spec (z : Z) :
  (0 <= z)%Z ->
  exists c ds,
    digits_of z = c :: ds /\
    Forall (fun c => isDigit c = true) (c :: ds) /\
    digits_value (c :: ds) = z /\
    ((0 < z)%Z -> c <> 48).
Proof.
  intros Hz. unfold digits_of.
  destruct (digits_acc_spec (Z.to_nat (Z.log2 z)) z []) as [c [ds [E H]]].
  - split; [exact Hz|].
    destruct (Z.eq_dec z 0%Z) as [->|Hn]; [apply Z.pow_pos_nonneg; lia|].
    pose proof (Z.log2_nonneg z).
    destruct (Z.log2_spec z ltac:(lia)) as [_ Hu].
    eapply Z.lt_le_trans; [exact Hu|].
    rewrite Nat2Z.inj_succ, Z2Nat.id by lia.
    apply Z.pow_le_mono_l. lia.
  - exists c, ds. rewrite E, app_nil_r. tauto.
Qed.

(** *** Rounding *)

Lemma pow2_pos (e : Z) : (0 < pow2 e)%Z.
Proof. unfold pow2. apply Z.pow_pos_nonneg; lia. Qed.

Lemma pow2_nonneg (e : Z) : (0 <= e)%Z -> pow2 e = (2 ^ e)%Z.
Proof. intros H. unfold pow2. now rewrite Z.max_r. Qed.

Lemma pow2_neg (e : Z) : (e <= 0)%Z -> pow2 e = 1%Z.
Proof. intros H. unfold pow2. now rewrite Z.max_l. Qed.

Lemma pow2_double (e : Z) : (0 < e)%Z -> pow2 e = (2 * pow2 (e - 1))%Z.
Proof.
  intros H. rewrite !pow2_nonneg by lia.
  rewrite <- Z.pow_succ_r by lia. f_equal. lia.
Qed.

Lemma log2_pow2_mul (a e : Z) :
  (0 < a)%Z -> Z.log2 (a * pow2 e) = (Z.log2 a + Z.max 0 e)%Z.
Proof.
  intros H. unfold pow2. rewrite Z.log2_mul_pow2 by lia. lia.
Qed.

(** A ratio that is a double is rounded to itself. *)
Lemma round_pos_exact (num den m e : Z) :
  (0 < num)%Z -> (0 < den)%Z -> (0 < m)%Z ->
  is_double (Finite false m e) = true ->
  (num * pow2 (- e) = m * (den * pow2 e))%Z ->
  round_pos num den = Some (m, e).
Proof.
  intros Hn Hd Hm Hdbl Hex.
  assert (P52 : (2 ^ 52 = 4503599627370496)%Z) by reflexivity.
  assert (P53 : (2 ^ 53 = 9007199254740992)%Z) by reflexivity.
  assert (Hshape :
            (4503599627370496 <= m < 9007199254740992 /\ -1074 <= e <= 971 \/
             0 < m < 4503599627370496 /\ e = -1074)%Z).
  { unfold is_double in Hdbl. rewrite P52, P53 in Hdbl.
    rewrite !orb_true_iff, !andb_true_iff in Hdbl.
    rewrite !Z.leb_le, !Z.ltb_lt, !Z.eqb_eq in Hdbl. lia. }
  clear Hdbl.
  pose proof (pow2_pos e) as Hp. pose proof (pow2_pos (- e)) as Hp'.
  (* where the binary logarithms put the first guess of the exponent *)
  assert (Hlog : (Z.log2 m + e <= Z.log2 num - Z.log2 den
                  <= Z.log2 m + e + 1)%Z).
  { pose proof (log2_pow2_mul num (- e) Hn) as L1.
    rewrite Hex in L1.
    replace (m * (den * pow2 e))%Z with ((m * den) * pow2 e)%Z in L1 by lia.
    rewrite log2_pow2_mul in L1 by lia.
    pose proof (Z.log2_mul_below m den Hm Hd).
    pose proof (Z.log2_mul_above m den ltac:(lia) ltac:(lia)). lia. }
  assert (HL : (4503599627370496 <= m -> Z.log2 m = 52)%Z).
  { intros H. apply Z.log2_unique; [lia|]. rewrite P52.
    change (2 ^ Z.succ 52)%Z with 9007199254740992%Z. lia. }
  assert (HL' : (m < 4503599627370496 -> Z.log2 m < 52)%Z).
  { intros H. apply Z.log2_lt_pow2; [lia|]. now rewrite P52. }
  unfold round_pos.
  destruct (Z.eqb_spec num 0) as [E|_]; [lia|].
  cbv zeta.
  set (e1 := Z.max (Z.log2 num - Z.log2 den - 53) (-1074)).
  assert (He1 : e1 = e \/ (e1 = e - 1 /\ 4503599627370496 <= m)%Z).
  { unfold e1. destruct Hshape as [[H1 H2]|[H1 H2]].
    - rewrite HL in Hlog by lia. lia.
    - specialize (HL' ltac:(lia)). pose proof (Z.log2_nonneg m). lia. }
  assert (Hq : (num * pow2 (- e) / (den * pow2 e) = m
                /\ (num * pow2 (- e)) mod (den * pow2 e) = 0)%Z).
  { rewrite Hex. split; [apply Z.div_mul | apply Z.mod_mul]; lia. }
  assert (Hfin : (if (num * pow2 (- e1) / (den * pow2 e1) <? 2 ^ 53)%Z
                  then e1 else (e1 + 1)%Z) = e).
  { rewrite P53. destruct He1 as [->|[-> Hbig]].
    - rewrite (proj1 Hq). destruct (Z.ltb_spec m 9007199254740992); lia.
    - assert (E2 : (num * pow2 (- (e - 1)) = (2 * m) * (den * pow2 (e - 1)))%Z).
      { destruct (Z_lt_le_dec 0 e) as [Hpos|Hneg].
        - rewrite (pow2_neg (- (e - 1))) by lia.
          rewrite (pow2_neg (- e)) in Hex by lia.
          rewrite (pow2_double e) in Hex by lia. lia.
        - rewrite (pow2_neg (e - 1)) by lia.
          rewrite (pow2_neg e) in Hex by lia.
          replace (- (e - 1))%Z with (- e + 1)%Z by lia.
          rewrite (pow2_double (- e + 1)) by lia.
          replace (- e + 1 - 1)%Z with (- e)%Z by lia. lia. }
      rewrite E2, Z.div_mul by (pose proof (pow2_pos (e - 1)); lia).
      destruct (Z.ltb_spec (2 * m) 9007199254740992); lia. }
  rewrite Hfin. rewrite (proj1 Hq), (proj2 Hq).
  replace (2 * 0 <? den * pow2 e)%Z with true
    by (symmetry; apply Z.ltb_lt; lia).
  rewrite P53.
  destruct (Z.eqb_spec m 9007199254740992) as [E|_]; [lia|].
  destruct (Z.ltb_spec 971 e); [lia|reflexivity].
Qed.

(** *** What the rounding returns *)

Section Rounding.
Local Open Scope Z_scope.

Lemma pow2_shift (e j : Z) :
  0 <= j -> pow2 (- e) * pow2 (e + j) = 2 ^ j * pow2 (- (e + j)) * pow2 e.
Proof.
  intros Hj.
  destruct (Z_le_gt_dec 0 e) as [He|He].
  - rewrite (pow2_neg (- e)), (pow2_neg (- (e + j))) by lia.
    rewrite !pow2_nonneg by lia. rewrite Z.pow_add_r by lia. lia.
  - destruct (Z_le_gt_dec (e + j) 0) as [Hs|Hs].
    + rewrite (pow2_neg (e + j)), (pow2_neg e) by lia.
      rewrite !pow2_nonneg by lia.
      rewrite <- Z.pow_add_r by lia. replace (j + - (e + j)) with (- e) by lia.
      lia.
    + rewrite (pow2_neg (- (e + j))), (pow2_neg e) by lia.
      rewrite !pow2_nonneg by lia.
      rewrite <- Z.pow_add_r by lia. replace (- e + (e + j)) with j by lia.
      lia.
Qed.

(** [num / den] against the powers of two, with both sides scaled to
    integers. *)
Section Scaled.
Variables num den : Z.
Hypothesis Hnum : 0 < num.
Hypothesis Hden : 0 < den.

Lemma scaled_pos (t : Z) : 0 < (num * pow2 (- t)) /\ 0 < (den * pow2 t).
Proof. pose proof (pow2_pos t). pose proof (pow2_pos (- t)). nia. Qed.

Lemma scaled_shift (e j : Z) :
  0 <= j -> (num * pow2 (- e)) * (den * pow2 (e + j)) = 2 ^ j * (num * pow2 (- (e + j))) * (den * pow2 e).
Proof.
  intros Hj. pose proof (pow2_shift e j Hj) as H.
  replace ((num * pow2 (- e)) * (den * pow2 (e + j))) with (num * den * (pow2 (- e) * pow2 (e + j)))
    by ring.
  rewrite H. ring.
Qed.

Lemma scaled_below (t : Z) :
  Z.log2 num - Z.log2 den + 1 <= t -> (num * pow2 (- t)) < (den * pow2 t).
Proof.
  intros Ht.
  destruct (Z.log2_spec num Hnum) as [_ Hn].
  destruct (Z.log2_spec den Hden) as [Hd _].
  pose proof (Z.log2_nonneg num). pose proof (Z.log2_nonneg den).
  destruct (Z_le_gt_dec 0 t) as [Hsign|Hsign].
  - rewrite (pow2_neg (- t)), (pow2_nonneg t) by lia.
    assert (2 ^ Z.succ (Z.log2 num) <= 2 ^ Z.log2 den * 2 ^ t).
    { rewrite <- Z.pow_add_r by lia. apply Z.pow_le_mono_r; lia. }
    assert (0 < 2 ^ t) by (apply Z.pow_pos_nonneg; lia). nia.
  - rewrite (pow2_nonneg (- t)), (pow2_neg t) by lia.
    assert (2 ^ Z.succ (Z.log2 num) * 2 ^ (- t) <= 2 ^ Z.log2 den).
    { rewrite <- Z.pow_add_r by lia. apply Z.pow_le_mono_r; lia. }
    assert (0 < 2 ^ (- t)) by (apply Z.pow_pos_nonneg; lia). nia.
Qed.

Lemma scaled_above (t : Z) :
  t <= Z.log2 num - Z.log2 den - 1 -> (den * pow2 t) <= (num * pow2 (- t)).
Proof.
  intros Ht.
  destruct (Z.log2_spec num Hnum) as [Hn _].
  destruct (Z.log2_spec den Hden) as [_ Hd].
  pose proof (Z.log2_nonneg num). pose proof (Z.log2_nonneg den).
  destruct (Z_le_gt_dec 0 t) as [Hsign|Hsign].
  - rewrite (pow2_neg (- t)), (pow2_nonneg t) by lia.
    assert (2 ^ Z.succ (Z.log2 den) * 2 ^ t <= 2 ^ Z.log2 num).
    { rewrite <- Z.pow_add_r by lia. apply Z.pow_le_mono_r; lia. }
    assert (0 < 2 ^ t) by (apply Z.pow_pos_nonneg; lia). nia.
  - rewrite (pow2_nonneg (- t)), (pow2_neg t) by lia.
    assert (2 ^ Z.succ (Z.log2 den) <= 2 ^ Z.log2 num * 2 ^ (- t)).
    { rewrite <- Z.pow_add_r by lia. apply Z.pow_le_mono_r; lia. }
    assert (0 < 2 ^ (- t)) by (apply Z.pow_pos_nonneg; lia). nia.
Qed.

Lemma quotient_below (e j : Z) :
  0 <= j -> (num * pow2 (- (e + j))) < (den * pow2 (e + j)) -> (num * pow2 (- e)) / (den * pow2 e) < 2 ^ j.
Proof.
  intros Hj H.
  destruct (scaled_pos e) as [Ha Hb]. destruct (scaled_pos (e + j)) as [Ha' Hb'].
  pose proof (scaled_shift e j Hj) as E.
  assert (Hp : 0 < 2 ^ j) by (apply Z.pow_pos_nonneg; lia).
  apply Z.div_lt_upper_bound; [exact Hb|].
  apply (Z.mul_lt_mono_pos_r ((den * pow2 (e + j)))); [exact Hb'|].
  rewrite E. nia.
Qed.

Lemma quotient_above (e j k : Z) :
  0 <= j -> 0 <= k -> 2 ^ k * (den * pow2 (e + j)) <= (num * pow2 (- (e + j))) ->
  2 ^ (k + j) <= (num * pow2 (- e)) / (den * pow2 e).
Proof.
  intros Hj Hk H.
  destruct (scaled_pos e) as [Ha Hb]. destruct (scaled_pos (e + j)) as [Ha' Hb'].
  pose proof (scaled_shift e j Hj) as E.
  assert (Hp : 0 < 2 ^ j) by (apply Z.pow_pos_nonneg; lia).
  assert (Hq : 0 < 2 ^ k) by (apply Z.pow_pos_nonneg; lia).
  rewrite Z.pow_add_r by lia.
  apply Z.div_le_lower_bound; [exact Hb|].
  apply (Z.mul_le_mono_pos_r _ _ ((den * pow2 (e + j)))); [exact Hb'|].
  rewrite E. nia.
Qed.

End Scaled.

(** What the rounding returns is a double. *)
Lemma round_pos_is_double (num den m e : Z) :
  0 <= num -> 0 < den -> round_pos num den = Some (m, e) ->
  is_double (Finite false m e) = true.
Proof.
  intros Hn Hd. unfold round_pos.
  destruct (Z.eqb_spec num 0) as [E|Hnz]; [now intros [= <- <-]|].
  assert (Hnum : 0 < num) by lia. clear Hn Hnz.
  cbv zeta.
  set (d := Z.log2 num - Z.log2 den).
  set (e1 := Z.max (d - 53) (-1074)).
  set (Q1 := num * pow2 (- e1) / (den * pow2 e1)).
  set (e0 := if Q1 <? 2 ^ 53 then e1 else e1 + 1).
  set (q := num * pow2 (- e0) / (den * pow2 e0)).
  set (r := (num * pow2 (- e0)) mod (den * pow2 e0)).
  set (dn := den * pow2 e0).
  assert (P52 : 2 ^ 52 = 4503599627370496) by reflexivity.
  assert (P53 : 2 ^ 53 = 9007199254740992) by reflexivity.
  assert (Hbelow : num * pow2 (- (e1 + 54)) < den * pow2 (e1 + 54)).
  { apply scaled_below; auto. unfold e1, d. lia. }
  assert (HQ1 : -1074 <= d - 53 -> 2 ^ 52 <= Q1).
  { intros Hr. unfold Q1.
    apply (quotient_above num den Hnum Hd e1 52 0); try lia.
    change (2 ^ 0) with 1. rewrite Z.mul_1_l.
    apply scaled_above; auto. unfold e1, d in *. lia. }
  assert (Hq : q < 2 ^ 53 /\ (2 ^ 52 <= q \/ e0 = -1074) /\ -1074 <= e0).
  { unfold q, e0. destruct (Z.ltb_spec Q1 (2 ^ 53)) as [Hlt|Hge].
    - fold Q1. split; [exact Hlt|]. split; [|unfold e1; lia].
      destruct (Z_le_gt_dec (-1074) (d - 53)) as [Hr|Hr].
      + left. now apply HQ1.
      + right. unfold e1. lia.
    - split; [|split; [left|unfold e1; lia]].
      + apply (quotient_below num den Hnum Hd (e1 + 1) 53); [lia|].
        now replace (e1 + 1 + 53) with (e1 + 54) by lia.
      + destruct (scaled_pos num den Hnum Hd e1) as [Ha Hb].
        destruct (scaled_pos num den Hnum Hd (e1 + 1)) as [Ha' Hb'].
        pose proof (scaled_shift num den e1 1 ltac:(lia)) as E.
        change (2 ^ 1) with 2 in E.
        assert (Hge' : 2 ^ 53 * (den * pow2 e1) <= num * pow2 (- e1)).
        { pose proof (Z.mul_div_le (num * pow2 (- e1)) (den * pow2 e1) Hb).
          fold Q1 in H. nia. }
        apply Z.div_le_lower_bound; [exact Hb'|].
        rewrite P52. rewrite P53 in Hge'. nia. }
  assert (Hq0 : 0 <= q).
  { unfold q. destruct (scaled_pos num den Hnum Hd e0) as [Ha Hb].
    apply Z.div_pos; lia. }
  clearbody q r dn e0. clear Hbelow HQ1 Q1 e1 d.
  destruct Hq as [Hq1 [Hq2 Hq3]]. rewrite P53, P52 in *. clear P52 P53.
  set (m0 := if 2 * r <? dn then q
             else if dn <? 2 * r then q + 1
             else if Z.even q then q else q + 1).
  assert (Hm0 : m0 = q \/ m0 = q + 1).
  { unfold m0. destruct (2 * r <? dn); auto. destruct (dn <? 2 * r); auto.
    destruct (Z.even q); auto. }
  clearbody m0.
  assert (Hgoal : forall m' e',
            -1074 <= e' <= 971 ->
            (4503599627370496 <= m' < 9007199254740992 \/
             (0 <= m' < 4503599627370496 /\ e' = -1074)) ->
            is_double (Finite false m' e') = true).
  { intros m' e' He Hm. unfold is_double.
    change (2 ^ 52) with 4503599627370496.
    change (2 ^ 53) with 9007199254740992.
    rewrite !orb_true_iff, !andb_true_iff.
    rewrite !Z.leb_le, !Z.ltb_lt, !Z.eqb_eq. lia. }
  destruct (Z.eqb_spec m0 9007199254740992) as [E|Hne].
  - destruct (Z.ltb_spec 971 (e0 + 1)); [discriminate|].
    intros [= <- <-]. apply Hgoal; lia.
  - destruct (Z.ltb_spec 971 e0); [discriminate|].
    intros [= <- <-]. apply Hgoal; lia.
Qed.

Lemma decimal_to_number_is_double (neg : bool) (a e10 : Z) :
  0 <= a -> is_double (decimal_to_number neg a e10) = true.
Proof.
  intros Ha. unfold decimal_to_number.
  destruct (Z.leb_spec 0 e10) as [He|He].
  - destruct (round_pos (a * 10 ^ e10) 1) as [[m e]|] eqn:E; [|reflexivity].
    apply round_pos_is_double in E; [exact E| |lia].
    apply Z.mul_nonneg_nonneg; [lia|]. apply Z.pow_nonneg. lia.
  - destruct (round_pos a (10 ^ (- e10))) as [[m e]|] eqn:E; [|reflexivity].
    apply round_pos_is_double in E; [exact E|lia|].
    apply Z.pow_pos_nonneg; lia.
Qed.

Lemma ms_is_double (z : Z) : is_double (ms z) = true.
Proof. apply decimal_to_number_is_double. lia. Qed.

End Rounding.

Lemma decimal_to_number_sign (neg : bool) (a e10 m e : Z) :
  decimal_to_number false a e10 = Finite false m e ->
  decimal_to_number neg a e10 = Finite neg m e.
Proof.
  unfold decimal_to_number.
  destruct (if (0 <=? e10)%Z then _ else _) as [num den].
  destruct (round_pos num den) as [[m' e']|]; [|discriminate].
  now intros [= -> ->].
Qed.

Lemma number_eqb_eq (x y : number) : number_eqb x y = true -> x = y.
Proof.
  destruct x as [n1 m1 e1|n1|], y as [n2 m2 e2|n2|]; simpl; try discriminate.
  - rewrite !andb_true_iff, !Z.eqb_eq, Bool.eqb_true_iff.
    now intros [[-> ->] ->].
  - rewrite Bool.eqb_true_iff. now intros ->.
  - reflexivity.
Qed.

(** *** The digits that Number::toString chooses *)

Lemma reads_back_denotes (m e s n k : Z) :
  reads_back m e s n k = true -> denotes m e s n k.
Proof.
  unfold reads_back, denotes.
  rewrite !andb_true_iff, Z.ltb_lt, Z.eqb_eq.
  intros [[H1 H2] H3]. apply number_eqb_eq in H3. tauto.
Qed.

Lemma candidate_denotes (m e n k s n' : Z) :
  candidate m e n k = Some (s, n') -> denotes m e s n' k.
Proof.
  unfold candidate. cbv zeta. unfold first_read_back.
  match goal with
  | |- (if reads_back m e (fst ?c1) (snd ?c1) k then _ else
        if reads_back m e (fst ?c2) (snd ?c2) k then _ else _) = _ -> _ =>
      destruct c1 as [s1 n1], c2 as [s2 n2]
  end.
  cbn [fst snd].
  destruct (reads_back m e s1 n1 k) eqn:E1;
    [|destruct (reads_back m e s2 n2 k) eqn:E2];
    intros [= <- <-]; now apply reads_back_denotes.
Qed.

Lemma search_digits_denotes (fuel : nat) (m e n k s n' k' : Z) :
  search_digits fuel m e n k = Some (s, n', k') -> denotes m e s n' k'.
Proof.
  revert k. induction fuel as [|f IH]; intros k; cbn [search_digits]; [discriminate|].
  destruct (candidate m e n k) as [[s0 n0]|] eqn:E.
  - intros [= <- <- <-]. now apply candidate_denotes in E.
  - apply IH.
Qed.

Lemma exact_decimal_denotes (m e : Z) :
  (0 < m)%Z -> is_double (Finite false m e) = true ->
  let '(s, n, k) := exact_decimal m e in denotes m e s n k.
Proof.
  intros Hm Hd. unfold exact_decimal. cbv zeta.
  destruct (Z.leb_spec 0 e) as [He|He].
  - assert (Hp : (0 < 2 ^ e)%Z) by (apply Z.pow_pos_nonneg; lia).
    split; [nia|]. split; [reflexivity|].
    replace (count_digits (m * 2 ^ e) + Z.min 0 e
             - count_digits (m * 2 ^ e))%Z with 0%Z by lia.
    unfold decimal_to_number. cbn [Z.leb Z.compare].
    rewrite (round_pos_exact _ 1 m e); auto; try nia.
    rewrite (pow2_neg (- e)), (pow2_nonneg e) by lia.
    change (10 ^ 0)%Z with 1%Z. lia.
  - assert (Hp : (0 < 5 ^ (- e))%Z) by (apply Z.pow_pos_nonneg; lia).
    split; [nia|]. split; [reflexivity|].
    replace (count_digits (m * 5 ^ (- e)) + Z.min 0 e
             - count_digits (m * 5 ^ (- e)))%Z with e by lia.
    unfold decimal_to_number.
    destruct (Z.leb_spec 0 e); [lia|].
    assert (H10 : (10 ^ (- e) = 2 ^ (- e) * 5 ^ (- e))%Z).
    { now rewrite <- Z.pow_mul_l. }
    assert (Hp2 : (0 < 2 ^ (- e))%Z) by (apply Z.pow_pos_nonneg; lia).
    rewrite (round_pos_exact _ _ m e); auto; try nia.
    rewrite (pow2_nonneg (- e)), (pow2_neg e) by lia.
    rewrite H10. lia.
Qed.

Lemma shortest_denotes (m e : Z) :
  (0 < m)%Z -> is_double (Finite false m e) = true ->
  let '(s, n, k) := shortest m e in denotes m e s n k.
Proof.
  intros Hm Hd. unfold shortest.
  destruct (search_digits 17 m e _ 1) as [[[s n] k]|] eqn:E.
  - now apply search_digits_denotes in E.
  - now apply exact_decimal_denotes.
Qed.

(** *** Reading a number literal *)

Lemma span_digits_app (ds rest : jsstring) :
  digits ds -> stops rest -> span_digits (ds ++ rest) = (ds, rest).
Proof.
  intros Hd Hs. induction Hd as [|c ds Hc Hd IH].
  - destruct rest as [|c r]; [reflexivity|]. simpl in *. now rewrite Hs.
  - cbn [app span_digits]. now rewrite Hc, IH.
Qed.

Lemma ends_number_stops (rest : jsstring) :
  ends_number rest = true -> stops rest.
Proof.
  destruct rest as [|c r]; [easy|]. simpl.
  rewrite negb_true_iff, !orb_false_iff. tauto.
Qed.

Lemma parse_exponent_text (ex : option (bool * jsstring)) (rest : jsstring) :
  exponent_ok ex -> ends_number rest = true ->
  parse_exponent (exponent_text ex ++ rest) = Some (exponent_value ex, rest).
Proof.
  intros Hex Hr. destruct ex as [[sg d]|]; cbn [exponent_text exponent_value].
  - destruct Hex as [Hd Hne].
    pose proof (span_digits_app d rest Hd (ends_number_stops _ Hr)) as E.
    destruct d as [|c d]; [congruence|].
    unfold parse_exponent. cbn [app N.eqb Pos.eqb orb].
    destruct sg; cbn [N.eqb Pos.eqb]; cbn [app] in E; now rewrite E.
  - cbn [app]. destruct rest as [|c r]; [reflexivity|].
    unfold parse_exponent. simpl in Hr.
    rewrite negb_true_iff, !orb_false_iff in Hr.
    destruct Hr as [[[_ _] H1] H2]. now rewrite H1, H2.
Qed.

Lemma parse_fraction_text (fp tail : jsstring) :
  digits fp -> stops tail ->
  match tail with c :: _ => (c =? 46) = false | [] => True end ->
  parse_fraction (fraction_text fp ++ tail) = Some (fp, tail).
Proof.
  intros Hd Hs H46. destruct fp as [|c fp]; cbn [fraction_text app].
  - destruct tail as [|c r]; [reflexivity|]. unfold parse_fraction.
    now rewrite H46.
  - unfold parse_fraction. cbn [N.eqb Pos.eqb].
    change (c :: fp ++ tail) with ((c :: fp) ++ tail).
    now rewrite (span_digits_app _ _ Hd Hs).
Qed.

Lemma exponent_tail (ex : option (bool * jsstring)) (rest : jsstring) :
  ends_number rest = true ->
  stops (exponent_text ex ++ rest) /\
  match exponent_text ex ++ rest with
  | c :: _ => (c =? 46) = false
  | [] => True
  end.
Proof.
  intros Hr. destruct ex as [[sg d]|]; cbn [exponent_text app].
  - split; reflexivity.
  - split; [now apply ends_number_stops|].
    destruct rest as [|c r]; [easy|]. simpl in Hr.
    rewrite negb_true_iff, !orb_false_iff in Hr. tauto.
Qed.

Lemma parse_unsigned_text
    (neg : bool) (ip fp : jsstring) (ex : option (bool * jsstring))
    (rest : jsstring) :
  digits ip -> int_digits ip = true -> digits fp -> exponent_ok ex ->
  ends_number rest = true ->
  parse_unsigned neg (ip ++ fraction_text fp ++ exponent_text ex ++ rest)
  = Some (number_value neg ip fp (exponent_value ex), rest).
Proof.
  intros Hip Hint Hfp Hex Hr.
  destruct (exponent_tail ex rest Hr) as [T1 T2].
  unfold parse_unsigned.
  rewrite (span_digits_app ip _ Hip).
  - rewrite Hint, parse_fraction_text, parse_exponent_text; auto.
  - destruct fp as [|c fp]; [exact T1|reflexivity].
Qed.

(** *** The four layouts of Number::toString *)

Lemma decimal_to_number_shift (neg : bool) (s d : Z) :
  (0 <= d)%Z ->
  decimal_to_number neg (s * 10 ^ d) 0 = decimal_to_number neg s d.
Proof.
  intros Hd. unfold decimal_to_number. cbn [Z.leb Z.compare].
  destruct (Z.leb_spec 0 d); [|lia].
  change (10 ^ 0)%Z with 1%Z. now rewrite Z.mul_1_r.
Qed.

Lemma format_decimal_shape (s n k : Z) :
  (0 < s)%Z -> count_digits s = k ->
  exists ip fp ex,
    format_decimal s n k = ip ++ fraction_text fp ++ exponent_text ex /\
    digits ip /\ int_digits ip = true /\ digits fp /\ exponent_ok ex /\
    forall neg,
      number_value neg ip fp (exponent_value ex)
      = JNum (decimal_to_number neg s (n - k)).
Proof.
  intros Hs Hk.
  destruct (digits_of_spec s ltac:(lia)) as [c [ds [E [Hd [Hv Hc]]]]].
  specialize (Hc Hs).
  assert (Hc' : negb (c =? 48) = true).
  { apply negb_true_iff. now apply N.eqb_neq. }
  unfold count_digits in Hk. rewrite E in Hk.
  unfold format_decimal. rewrite E. cbv zeta.
  destruct ((k <=? n)%Z && (n <=? 21)%Z) eqn:C1.
  { (* the digits, then zeros *)
    apply andb_true_iff in C1. destruct C1 as [C1 _]. apply Z.leb_le in C1.
    exists ((c :: ds) ++ repeat 48 (Z.to_nat (n - k))), [], None.
    cbn [fraction_text exponent_text]. rewrite !app_nil_r.
    repeat split; auto.
    - apply List.Forall_app. split; [exact Hd | apply isDigit_zeros].
    - cbn [app int_digits]. now rewrite Hc'.
    - intros neg. unfold number_value. f_equal.
      cbn [exponent_value List.length]. rewrite app_nil_r.
      unfold digits_value in *.
      rewrite digits_value_acc_app, Hv, digits_value_zeros.
      rewrite Z2Nat.id by lia. change (0 - Z.of_nat 0)%Z with 0%Z.
      apply decimal_to_number_shift. lia. }
  destruct ((0 <? n)%Z && (n <=? 21)%Z) eqn:C2.
  { (* a point inside the digits *)
    apply andb_true_iff in C2. destruct C2 as [C2 C2']. apply Z.ltb_lt in C2.
    apply Z.leb_le in C2'.
    assert (Hnk : (n < k)%Z).
    { apply andb_false_iff in C1. rewrite Z.leb_gt in C1. lia. }
    pose proof (List.firstn_skipn (Z.to_nat n) (c :: ds)) as Hsplit.
    assert (Hlen : List.length (skipn (Z.to_nat n) (c :: ds))
                   = Z.to_nat (k - n)).
    { rewrite List.length_skipn. lia. }
    exists (firstn (Z.to_nat n) (c :: ds)), (skipn (Z.to_nat n) (c :: ds)), None.
    rewrite <- Hsplit in Hd. apply List.Forall_app in Hd. destruct Hd as [Hd1 Hd2].
    cbn [exponent_text]. rewrite app_nil_r.
    repeat split; auto.
    - destruct (skipn (Z.to_nat n) (c :: ds)) eqn:Es.
      + simpl in Hlen. lia.
      + reflexivity.
    - destruct (Z.to_nat n) as [|n'] eqn:En; [lia|].
      cbn [firstn int_digits]. now rewrite Hc'.
    - intros neg. unfold number_value. rewrite Hsplit, Hv, Hlen.
      cbn [exponent_value]. f_equal. f_equal. lia. }
  destruct ((-6 <? n)%Z && (n <=? 0)%Z) eqn:C3.
  { (* zeros after the point, then the digits *)
    apply andb_true_iff in C3. destruct C3 as [C3 C3']. apply Z.ltb_lt in C3.
    apply Z.leb_le in C3'.
    exists [48], (repeat 48 (Z.to_nat (- n)) ++ c :: ds), None.
    cbn [exponent_text]. rewrite app_nil_r.
    repeat split; auto.
    - destruct (repeat 48 (Z.to_nat (- n)) ++ c :: ds) eqn:Es.
      + now apply List.app_eq_nil in Es.
      + reflexivity.
    - apply List.Forall_app. split; [apply isDigit_zeros | exact Hd].
    - intros neg. unfold number_value. f_equal. f_equal.
      + change ([48] ++ repeat 48 (Z.to_nat (- n)) ++ c :: ds)
          with (repeat 48 (S (Z.to_nat (- n))) ++ c :: ds).
        unfold digits_value in *.
        rewrite digits_value_acc_app, digits_value_zeros. exact Hv.
      + cbn [exponent_value]. rewrite List.length_app, List.repeat_length. lia. }
  (* one digit, the others after the point, and the exponent *)
  assert (Hn : (n <= -6 \/ 21 < n)%Z).
  { rewrite andb_false_iff, Z.leb_gt, Z.ltb_ge in C2, C3. lia. }
  destruct (digits_of_spec (Z.abs (n - 1)) ltac:(lia))
    as [c' [ds' [E' [Hd' _]]]].
  set (sg := (n - 1 <? 0)%Z).
  assert (Hev : exponent_value (Some (sg, digits_of (Z.abs (n - 1))))
                = (n - 1)%Z).
  { cbn [exponent_value]. unfold sg.
    destruct (digits_of_spec (Z.abs (n - 1)) ltac:(lia))
      as [c2 [ds2 [E2 [_ [Hv2 _]]]]].
    rewrite E2, Hv2. destruct (Z.ltb_spec (n - 1) 0); lia. }
  assert (Hok : exponent_ok (Some (sg, digits_of (Z.abs (n - 1))))).
  { cbn [exponent_ok]. rewrite E'. split; [exact Hd' | discriminate]. }
  exists [c], ds, (Some (sg, digits_of (Z.abs (n - 1)))).
  pose proof (List.Forall_inv_tail Hd) as Hds.
  pose proof (List.Forall_inv Hd) as Hc1. cbv beta in Hc1.
  split; [|split; [|split; [|split; [|split]]]]; auto.
  - destruct ds as [|d2 r]; cbn [fraction_text exponent_text app]; auto.
  - cbn [int_digits]. apply orb_true_r.
  - intros neg. unfold number_value. rewrite Hev.
    change ([c] ++ ds) with (c :: ds). rewrite Hv. f_equal. f_equal.
    cbn [List.length] in Hk. lia.
Qed.

Lemma format_decimal_parse (neg : bool) (s n k : Z) (rest : jsstring) :
  (0 < s)%Z -> count_digits s = k -> ends_number rest = true ->
  parse_unsigned neg (format_decimal s n k ++ rest)
  = Some (JNum (decimal_to_number neg s (n - k)), rest) /\
  exists c u, format_decimal s n k = c :: u /\ isDigit c = true.
Proof.
  intros Hs Hk Hr.
  destruct (format_decimal_shape s n k Hs Hk)
    as [ip [fp [ex [E [Hip [Hint [Hfp [Hex Hval]]]]]]]].
  split.
  - rewrite E, <- !app_assoc, <- Hval. now apply parse_unsigned_text.
  - rewrite E. destruct Hip as [|c ip Hc _]; [discriminate|].
    now exists c, (ip ++ fraction_text fp ++ exponent_text ex).
Qed.

(** What [Number::toString] prints for a finite double other than negative
    zero is read back as that double. *)
Lemma parse_Number_toString (x : number) (rest : jsstring) :
  storable x = true -> ends_number rest = true ->
  parse_number (Number_toString x ++ rest) = Some (JNum x, rest).
Proof.
  destruct x as [neg m e| |]; try discriminate.
  unfold storable. rewrite andb_true_iff, negb_true_iff.
  intros [Hd Hz] Hr. unfold Number_toString.
  destruct (Z.eqb_spec m 0) as [->|Hm].
  - rewrite andb_true_r in Hz. subst neg.
    assert (e = (-1074)%Z) as ->.
    { unfold is_double in Hd. cbn [Z.eqb Z.ltb Z.leb Z.compare andb orb] in Hd.
      destruct (Z.eqb_spec e (-1074)); [assumption|].
      rewrite ?andb_false_r in Hd. discriminate. }
    change (str "0") with [48].
    cbn [app parse_number N.eqb Pos.eqb].
    change (48 :: rest) with ([48] ++ fraction_text [] ++ exponent_text None ++ rest).
    rewrite parse_unsigned_text; auto; try now repeat constructor.
  - assert (Hpos : (0 < m)%Z).
    { unfold is_double in Hd.
      rewrite !orb_true_iff, !andb_true_iff in Hd.
      rewrite !Z.leb_le, !Z.ltb_lt, !Z.eqb_eq in Hd.
      change (2 ^ 52)%Z with 4503599627370496%Z in Hd. lia. }
    assert (Hd' : is_double (Finite false m e) = true) by exact Hd.
    pose proof (shortest_denotes m e Hpos Hd') as H.
    destruct (shortest m e) as [[s n] k].
    destruct H as [Hs [Hk Hval]].
    destruct (format_decimal_parse neg s n k rest Hs Hk Hr)
      as [P [c [u [E Hc]]]].
    rewrite (decimal_to_number_sign neg _ _ _ _ Hval) in P.
    destruct neg.
    + cbn [app parse_number N.eqb Pos.eqb]. exact P.
    + cbn [app]. rewrite E in P |- *. cbn [app parse_number] in P |- *.
      destruct (N.eqb_spec c 45) as [->|_]; [discriminate|]. exact P.
Qed.

Lemma Number_toString_head (x : number) :
  storable x = true ->
  exists c u, Number_toString x = c :: u /\ (c = 45 \/ 48 <= c <= 57).
Proof.
  destruct x as [neg m e| |]; try discriminate.
  unfold storable. rewrite andb_true_iff. intros [Hd _].
  unfold Number_toString. destruct (Z.eqb_spec m 0) as [->|Hm].
  - exists 48, []. split; [reflexivity|lia].
  - assert (Hpos : (0 < m)%Z).
    { unfold is_double in Hd.
      rewrite !orb_true_iff, !andb_true_iff in Hd.
      rewrite !Z.leb_le, !Z.ltb_lt, !Z.eqb_eq in Hd.
      change (2 ^ 52)%Z with 4503599627370496%Z in Hd. lia. }
    assert (Hd' : is_double (Finite false m e) = true) by exact Hd.
    pose proof (shortest_denotes m e Hpos Hd') as H.
    destruct (shortest m e) as [[s n] k].
    destruct H as [Hs [Hk _]].
    destruct (format_decimal_parse false s n k [] Hs Hk eq_refl)
      as [_ [c [u [E Hc]]]].
    destruct neg; cbn [app].
    + eexists _, _. split; [reflexivity|now left].
    + exists c, u. split; [exact E|]. right.
      unfold isDigit in Hc. apply andb_true_iff in Hc.
      rewrite !N.leb_le in Hc. exact Hc.
Qed.

(** *** String literals *)

Lemma reads_literal (c : N) :
  32 <= c -> c <> 34 -> c <> 92 -> reads_as [c] c.
Proof.
  intros H1 H2 H3 tl. cbn [app parse_chars].
  rewrite (proj2 (N.eqb_neq c 34) H2), (proj2 (N.eqb_neq c 92) H3).
  now rewrite (proj2 (N.ltb_ge c 32) H1).
Qed.

Lemma hex_digit_hexchar (d : N) : d < 16 -> hex_digit (hexchar d) = Some d.
Proof.
  intros H.
  assert (d = 0 \/ d = 1 \/ d = 2 \/ d = 3 \/ d = 4 \/ d = 5 \/ d = 6 \/ d = 7
          \/ d = 8 \/ d = 9 \/ d = 10 \/ d = 11 \/ d = 12 \/ d = 13 \/ d = 14
          \/ d = 15) as Hcase by lia.
  repeat (destruct Hcase as [->|Hcase]; [reflexivity|]). now subst d.
Qed.

Lemma hex4_digits (c : N) :
  c < 65536 ->
  hex4 (hexchar (c / 4096 mod 16)) (hexchar (c / 256 mod 16))
       (hexchar (c / 16 mod 16)) (hexchar (c mod 16)) = Some c.
Proof.
  intros H. unfold hex4.
  rewrite !hex_digit_hexchar by (apply N.mod_lt; discriminate).
  f_equal.
  assert (E4 : c / 4096 mod 16 = c / 4096).
  { apply N.mod_small. apply N.Div0.div_lt_upper_bound. exact H. }
  rewrite E4. clear E4.
  change 4096 with (16 * (16 * 16)). change 256 with (16 * 16).
  rewrite <- !N.Div0.div_div.
  pose proof (N.div_mod c 16 ltac:(discriminate)) as E1.
  pose proof (N.div_mod (c / 16) 16 ltac:(discriminate)) as E2.
  pose proof (N.div_mod (c / 16 / 16) 16 ltac:(discriminate)) as E3.
  lia.
Qed.

Lemma reads_unicodeEscape (c : N) : c < 65536 -> reads_as (unicodeEscape c) c.
Proof.
  intros H tl. unfold unicodeEscape. cbn [app parse_chars].
  change (92 =? 34) with false. change (92 =? 92) with true.
  change (117 =? 117) with true. cbv iota.
  now rewrite (hex4_digits c H).
Qed.

Lemma reads_quoteUnit (c : N) : c < 55296 \/ 57343 < c -> reads_as (quoteUnit c) c.
Proof.
  intros Hc. unfold quoteUnit.
  destruct (N.eqb_spec c 8) as [->|N8]; [intros tl; reflexivity|].
  destruct (N.eqb_spec c 9) as [->|N9]; [intros tl; reflexivity|].
  destruct (N.eqb_spec c 10) as [->|N10]; [intros tl; reflexivity|].
  destruct (N.eqb_spec c 12) as [->|N12]; [intros tl; reflexivity|].
  destruct (N.eqb_spec c 13) as [->|N13]; [intros tl; reflexivity|].
  destruct (N.eqb_spec c 34) as [->|N34]; [intros tl; reflexivity|].
  destruct (N.eqb_spec c 92) as [->|N92]; [intros tl; reflexivity|].
  destruct (N.ltb_spec c 32) as [Hlt|Hge].
  - apply reads_unicodeEscape. lia.
  - now apply reads_literal.
Qed.

Lemma high_range (c : N) : isHighSurrogate c = true -> 55296 <= c <= 56319.
Proof.
  unfold isHighSurrogate. rewrite andb_true_iff, !N.leb_le. tauto.
Qed.

Lemma low_range (c : N) : isLowSurrogate c = true -> 56320 <= c <= 57343.
Proof.
  unfold isLowSurrogate. rewrite andb_true_iff, !N.leb_le. tauto.
Qed.

Lemma no_surrogate_range (c : N) :
  isHighSurrogate c = false -> isLowSurrogate c = false ->
  c < 55296 \/ 57343 < c.
Proof.
  unfold isHighSurrogate, isLowSurrogate.
  rewrite !andb_false_iff, !N.leb_gt. lia.
Qed.

Lemma reads_quoteUnits (s : jsstring) (prev : option N) (rest : jsstring) :
  parse_chars (quoteUnits prev s ++ 34 :: rest) = Some (s, rest).
Proof.
  revert prev. induction s as [|c s IH]; intros prev.
  - reflexivity.
  - cbn [quoteUnits]. rewrite <- app_assoc.
    assert (R : reads_as
                  (if isHighSurrogate c
                   then match s with
                        | [] => unicodeEscape c
                        | d :: _ => if isLowSurrogate d then [c] else unicodeEscape c
                        end
                   else if isLowSurrogate c
                        then match prev with
                             | Some p => if isHighSurrogate p then [c] else unicodeEscape c
                             | None => unicodeEscape c
                             end
                        else quoteUnit c) c).
    { destruct (isHighSurrogate c) eqn:Hh.
      - apply high_range in Hh.
        destruct s as [|d s']; [apply reads_unicodeEscape; lia|].
        destruct (isLowSurrogate d);
          [apply reads_literal; lia | apply reads_unicodeEscape; lia].
      - destruct (isLowSurrogate c) eqn:Hl.
        + apply low_range in Hl.
          destruct prev as [p|]; [|apply reads_unicodeEscape; lia].
          destruct (isHighSurrogate p);
            [apply reads_literal; lia | apply reads_unicodeEscape; lia].
        + apply reads_quoteUnit. now apply no_surrogate_range. }
    rewrite R, IH. reflexivity.
Qed.

(** ** The reader and its fuel *)

Lemma dropWhile_length {A} (p : A -> bool) (l : list A) :
  (length (dropWhile p l) <= length l)%nat.
Proof.
  induction l as [|x l IH]; simpl; [lia|]. destruct (p x); simpl; lia.
Qed.

Lemma expect_length (c : N) (s r : jsstring) :
  expect c s = Some r -> (length r < length s)%nat.
Proof.
  unfold expect, skip_ws. pose proof (dropWhile_length isJsonSpace s) as H.
  destruct (dropWhile isJsonSpace s) as [|d r']; [discriminate|].
  destruct (d =? c); [|discriminate]. intros [= <-]. simpl in H. lia.
Qed.

Lemma parse_chars_length (s t r : jsstring) :
  parse_chars s = Some (t, r) -> (length r < length s)%nat.
Proof.
  remember (length s) as n eqn:Hn. revert s t r Hn.
  induction n as [n IH] using lt_wf_ind. intros s t r Hn.
  destruct s as [|c s]; [discriminate|]. cbn [parse_chars].
  destruct (c =? 34); [intros [= <- <-]; simpl in *; lia|].
  destruct (c =? 92).
  - destruct s as [|e s]; [discriminate|].
    destruct (e =? 117).
    + destruct s as [|h1 [|h2 [|h3 [|h4 s]]]]; try discriminate.
      destruct (hex4 h1 h2 h3 h4); [|discriminate].
      destruct (parse_chars s) as [[t' r']|] eqn:E; [|discriminate].
      intros [= <- <-]. apply (IH (length s)) in E; simpl in *; lia.
    + destruct (unescape e); [|discriminate].
      destruct (parse_chars s) as [[t' r']|] eqn:E; [|discriminate].
      intros [= <- <-]. apply (IH (length s)) in E; simpl in *; lia.
  - destruct (c <? 32); [discriminate|].
    destruct (parse_chars s) as [[t' r']|] eqn:E; [|discriminate].
    intros [= <- <-]. apply (IH (length s)) in E; simpl in *; lia.
Qed.

Lemma span_digits_length (s d r : jsstring) :
  span_digits s = (d, r) ->
  (length r <= length s)%nat /\ (d <> [] -> (length r < length s)%nat).
Proof.
  revert d r. induction s as [|c s IH]; intros d r; cbn [span_digits].
  - intros [= <- <-]. split; [lia|congruence].
  - destruct (isDigit c).
    + destruct (span_digits s) as [d' r'] eqn:E. intros [= <- <-].
      destruct (IH _ _ eq_refl) as [H _]. simpl. split; lia.
    + intros [= <- <-]. split; [lia|congruence].
Qed.

Lemma strip_prefix_length (p s r : jsstring) :
  strip_prefix p s = Some r -> (length r <= length s)%nat.
Proof.
  revert s. induction p as [|a p IH]; intros s; simpl.
  - intros [= <-]. lia.
  - destruct s as [|c s]; [discriminate|].
    destruct (c =? a); [|discriminate]. intros H. apply IH in H. simpl. lia.
Qed.

Lemma literal_length (w : string) (v v' : json) (s r : jsstring) :
  literal w v s = Some (v', r) -> (length r <= length s)%nat.
Proof.
  unfold literal. destruct (strip_prefix (str w) s) as [r'|] eqn:E; [|discriminate].
  intros [= _ <-]. now apply strip_prefix_length in E.
Qed.

Lemma parse_fraction_length (s r d : jsstring) :
  parse_fraction s = Some (d, r) -> (length r <= length s)%nat.
Proof.
  unfold parse_fraction. destruct s as [|c s]; [intros [= _ <-]; lia|].
  destruct (c =? 46); [|intros [= _ <-]; lia].
  destruct (span_digits s) as [fp r'] eqn:E.
  apply span_digits_length in E. destruct E as [E _].
  destruct fp; [discriminate|]; intros [= _ <-]; simpl; lia.
Qed.

Lemma parse_exponent_length (s r : jsstring) (e : Z) :
  parse_exponent s = Some (e, r) -> (length r <= length s)%nat.
Proof.
  unfold parse_exponent.
  assert (D : forall neg x,
            match span_digits x with
            | ([], _) => None
            | (e0, r') =>
                Some (if neg : bool then (- digits_value e0)%Z
                      else digits_value e0, r')
            end = Some (e, r) -> (length r <= length x)%nat).
  { intros neg x. destruct (span_digits x) as [e0 r'] eqn:E.
    apply span_digits_length in E. destruct E as [E _].
    destruct e0; [discriminate|]; intros [= _ <-]; exact E. }
  destruct s as [|c s]; [intros [= _ <-]; lia|].
  destruct ((c =? 101) || (c =? 69)); [|intros [= _ <-]; lia].
  destruct s as [|d s]; [discriminate|].
  destruct (d =? 43); [intros H; pose proof (D false s H); simpl; lia|].
  destruct (d =? 45); [intros H; pose proof (D true s H); simpl; lia|].
  intros H; pose proof (D false (d :: s) H); simpl in *; lia.
Qed.

Lemma parse_unsigned_length (neg : bool) (s r : jsstring) (v : json) :
  parse_unsigned neg s = Some (v, r) -> (length r < length s)%nat.
Proof.
  unfold parse_unsigned.
  destruct (span_digits s) as [ip s2] eqn:E1.
  apply span_digits_length in E1. destruct E1 as [_ E1].
  destruct (int_digits ip) eqn:Hok; [|discriminate].
  assert (Hne : ip <> []) by (destruct ip; [discriminate|congruence]).
  specialize (E1 Hne).
  destruct (parse_fraction s2) as [[fp s3]|] eqn:E2; [|discriminate].
  apply parse_fraction_length in E2.
  destruct (parse_exponent s3) as [[e s4]|] eqn:E3; [|discriminate].
  apply parse_exponent_length in E3.
  intros [= _ <-]. lia.
Qed.

Lemma parse_number_length (s r : jsstring) (v : json) :
  parse_number s = Some (v, r) -> (length r < length s)%nat.
Proof.
  unfold parse_number. destruct s as [|c s]; [discriminate|].
  destruct (c =? 45); intros H; apply parse_unsigned_length in H;
    simpl in *; lia.
Qed.

Lemma skip_ws_length (s : jsstring) : (length (skip_ws s) <= length s)%nat.
Proof. apply dropWhile_length. Qed.

Lemma parse_value_S (f : nat) (s : jsstring) :
  parse_value (S f) s =
  match skip_ws s with
  | [] => None
  | c :: r =>
      if c =? 34 then
        let* (t, r') := parse_chars r in Some (JStr t, r')
      else if c =? 91 then
        match expect 93 r with
        | Some r' => Some (JArr [], r')
        | None => let* (l, r') := parse_elements f r in Some (JArr l, r')
        end
      else if c =? 123 then
        match expect 125 r with
        | Some r' => Some (JObj [], r')
        | None => let* (o, r') := parse_members f r [] in Some (JObj o, r')
        end
      else if c =? 116 then literal "rue" (JBool true) r
      else if c =? 102 then literal "alse" (JBool false) r
      else if c =? 110 then literal "ull" JNull r
      else parse_number (c :: r)
  end.
Proof. reflexivity. Qed.

Lemma parse_elements_S (f : nat) (s : jsstring) :
  parse_elements (S f) s =
  let* (v, r) := parse_value f s in
  match expect 44 r with
  | Some r' => let* (l, r'') := parse_elements f r' in Some (v :: l, r'')
  | None =>
      match expect 93 r with
      | Some r' => Some ([v], r')
      | None => None
      end
  end.
Proof. reflexivity. Qed.

Lemma parse_members_S (f : nat) (s : jsstring) (o : list (jsstring * json)) :
  parse_members (S f) s o =
  let* r := expect 34 s in
  let* (k, r1) := parse_chars r in
  let* r2 := expect 58 r1 in
  let* (v, r3) := parse_value f r2 in
  match expect 44 r3 with
  | Some r4 => parse_members f r4 (obj_set k v o)
  | None =>
      match expect 125 r3 with
      | Some r4 => Some (obj_set k v o, r4)
      | None => None
      end
  end.
Proof. reflexivity. Qed.

(** A successful parse consumes input, and succeeds alike with any fuel
    from twice the number of code units it consumed. *)
Lemma fuel_bound (n : nat) :
  (forall s v r,
     parse_value n s = Some (v, r) ->
     (length r < length s)%nat /\
     forall m, (2 * (length s - length r) <= m)%nat ->
               parse_value m s = Some (v, r)) /\
  (forall s l r,
     parse_elements n s = Some (l, r) ->
     (length r < length s)%nat /\
     forall m, (2 * (length s - length r) - 1 <= m)%nat ->
               parse_elements m s = Some (l, r)) /\
  (forall s o x r,
     parse_members n s o = Some (x, r) ->
     (length r < length s)%nat /\
     forall m, (2 * (length s - length r) - 1 <= m)%nat ->
               parse_members m s o = Some (x, r)).
Proof.
  induction n as [|n (IHv & IHe & IHm)].
  { repeat split; intros; discriminate. }
  split; [|split].
  - intros s v r H. rewrite parse_value_S in H.
    pose proof (skip_ws_length s) as Ls.
    destruct (skip_ws s) as [|c r0] eqn:Es; [discriminate|]. simpl in Ls.
    assert (Step : forall body,
              body = Some (v, r) ->
              (length r < length s)%nat ->
              (forall m',
                 (2 * (length s - length r) <= S m')%nat ->
                 parse_value (S m') s = body) ->
              (length r < length s)%nat /\
              forall m, (2 * (length s - length r) <= m)%nat ->
                        parse_value m s = Some (v, r)).
    { intros body Hb L B. split; [exact L|].
      intros [|m'] Hm; [lia|]. now rewrite (B m' Hm). }
    destruct (c =? 34) eqn:E34.
    { destruct (parse_chars r0) as [[t r']|] eqn:Ec; [|discriminate].
      injection H as <- <-. apply parse_chars_length in Ec as L.
      apply (Step (Some (JStr t, r'))); [reflexivity|lia|].
      intros m' _. rewrite parse_value_S, Es. cbv beta iota.
      now rewrite E34, Ec. }
    destruct (c =? 91) eqn:E91.
    { destruct (expect 93 r0) as [r'|] eqn:Ex.
      - injection H as <- <-. apply expect_length in Ex as L.
        apply (Step (Some (JArr [], r'))); [reflexivity|lia|].
        intros m' _. rewrite parse_value_S, Es. cbv beta iota.
        now rewrite E34, E91, Ex.
      - destruct (parse_elements n r0) as [[l r']|] eqn:Ee; [|discriminate].
        injection H as <- <-. destruct (IHe _ _ _ Ee) as [L B].
        apply (Step (Some (JArr l, r'))); [reflexivity|lia|].
        intros m' Hm. rewrite parse_value_S, Es. cbv beta iota.
        rewrite E34, E91, Ex, (B m') by lia. reflexivity. }
    destruct (c =? 123) eqn:E123.
    { destruct (expect 125 r0) as [r'|] eqn:Ex.
      - injection H as <- <-. apply expect_length in Ex as L.
        apply (Step (Some (JObj [], r'))); [reflexivity|lia|].
        intros m' _. rewrite parse_value_S, Es. cbv beta iota.
        now rewrite E34, E91, E123, Ex.
      - destruct (parse_members n r0 []) as [[o r']|] eqn:Ee; [|discriminate].
        injection H as <- <-. destruct (IHm _ _ _ _ Ee) as [L B].
        apply (Step (Some (JObj o, r'))); [reflexivity|lia|].
        intros m' Hm. rewrite parse_value_S, Es. cbv beta iota.
        rewrite E34, E91, E123, Ex, (B m') by lia. reflexivity. }
    assert (L : (length r < length s)%nat).
    { destruct (c =? 116); [apply literal_length in H; lia|].
      destruct (c =? 102); [apply literal_length in H; lia|].
      destruct (c =? 110); [apply literal_length in H; lia|].
      apply parse_number_length in H. simpl in H. lia. }
    apply (Step _ H L).
    intros m' _. rewrite parse_value_S, Es. cbv beta iota.
    now rewrite E34, E91, E123.
  - intros s l r H. rewrite parse_elements_S in H.
    destruct (parse_value n s) as [[v r1]|] eqn:Ev; [|discriminate].
    destruct (IHv _ _ _ Ev) as [Lv Bv].
    destruct (expect 44 r1) as [r2|] eqn:E44.
    + apply expect_length in E44 as L2.
      destruct (parse_elements n r2) as [[l' r']|] eqn:Ee; [|discriminate].
      injection H as <- <-. destruct (IHe _ _ _ Ee) as [Le Be].
      split; [lia|]. intros [|m'] Hm; [lia|].
      rewrite parse_elements_S, (Bv m') by lia.
      rewrite E44, (Be m') by lia. reflexivity.
    + destruct (expect 93 r1) as [r2|] eqn:E93; [|discriminate].
      apply expect_length in E93 as L2. injection H as <- <-.
      split; [lia|]. intros [|m'] Hm; [lia|].
      rewrite parse_elements_S, (Bv m') by lia.
      now rewrite E44, E93.
  - intros s o x r H. rewrite parse_members_S in H.
    destruct (expect 34 s) as [r1|] eqn:E34; [|discriminate].
    apply expect_length in E34 as L1.
    destruct (parse_chars r1) as [[k r2]|] eqn:Ec; [|discriminate].
    apply parse_chars_length in Ec as L2.
    destruct (expect 58 r2) as [r3|] eqn:E58; [|discriminate].
    apply expect_length in E58 as L3.
    destruct (parse_value n r3) as [[v r4]|] eqn:Ev; [|discriminate].
    destruct (IHv _ _ _ Ev) as [Lv Bv].
    destruct (expect 44 r4) as [r5|] eqn:E44.
    + apply expect_length in E44 as L5.
      destruct (IHm _ _ _ _ H) as [Lm Bm].
      split; [lia|]. intros [|m'] Hm; [lia|].
      rewrite parse_members_S, E34, Ec, E58, (Bv m') by lia.
      rewrite E44. apply Bm. lia.
    + destruct (expect 125 r4) as [r5|] eqn:E125; [|discriminate].
      apply expect_length in E125 as L5. injection H as <- <-.
      split; [lia|]. intros [|m'] Hm; [lia|].
      rewrite parse_members_S, E34, Ec, E58, (Bv m') by lia.
      now rewrite E44, E125.
Qed.

(** The fuel [parse] gives is enough: when the grammar's reader accepts the
    text with some fuel, [parse] returns that value. *)
Lemma parse_fuel_enough (n : nat) (text r : jsstring) (v : json) :
  parse_value n text = Some (v, r) -> skip_ws r = [] -> parse text = Some v.
Proof.
  intros H Hr. destruct (fuel_bound n) as [B _].
  destruct (B _ _ _ H) as [_ Bm]. unfold parse.
  rewrite (Bm (2 * length text + 2)%nat) by lia. now rewrite Hr.
Qed.

(** ** The numbers that [JSON.parse] returns *)

Lemma span_digits_digits (s d r : jsstring) :
  span_digits s = (d, r) -> digits d.
Proof.
  revert d r. induction s as [|c s IH]; intros d r; cbn [span_digits].
  - intros [= <- <-]. constructor.
  - destruct (isDigit c) eqn:Hc.
    + destruct (span_digits s) as [d' r'] eqn:E. intros [= <- <-].
      constructor; [exact Hc | now apply (IH d' r')].
    + intros [= <- <-]. constructor.
Qed.

Lemma digits_value_nonneg (l : jsstring) (a : Z) :
  digits l -> (0 <= a)%Z -> (0 <= digits_value_acc l a)%Z.
Proof.
  intros Hl. revert a. induction Hl as [|c l Hc _ IH]; intros a Ha.
  - exact Ha.
  - cbn [digits_value_acc]. apply IH. unfold isDigit in Hc.
    apply andb_true_iff in Hc. rewrite !N.leb_le in Hc. lia.
Qed.

Lemma parse_number_double (s r : jsstring) (v : json) :
  parse_number s = Some (v, r) -> numbers_are_doubles v = true.
Proof.
  assert (U : forall neg s0,
            parse_unsigned neg s0 = Some (v, r) ->
            numbers_are_doubles v = true).
  { intros neg s0. unfold parse_unsigned.
    destruct (span_digits s0) as [ip s2] eqn:E1.
    apply span_digits_digits in E1.
    destruct (int_digits ip); [|discriminate].
    destruct (parse_fraction s2) as [[fp s3]|] eqn:E2; [|discriminate].
    assert (Hfp : digits fp).
    { unfold parse_fraction in E2. destruct s2 as [|c s2].
      - injection E2 as <- _. constructor.
      - destruct (c =? 46).
        + destruct (span_digits s2) as [fp' r'] eqn:E.
          apply span_digits_digits in E.
          destruct fp'; [discriminate|]. now injection E2 as <- _.
        + injection E2 as <- _. constructor. }
    destruct (parse_exponent s3) as [[e s4]|]; [|discriminate].
    intros [= <- _]. unfold number_value. cbn [numbers_are_doubles].
    apply decimal_to_number_is_double. unfold digits_value.
    apply digits_value_nonneg; [|lia].
    apply List.Forall_app. now split. }
  unfold parse_number. destruct s as [|c s]; [discriminate|].
  destruct (c =? 45); apply U.
Qed.

Lemma obj_set_doubles (k : jsstring) (v : json) (o : list (jsstring * json)) :
  numbers_are_doubles v = true ->
  numbers_are_doubles (JObj o) = true ->
  numbers_are_doubles (JObj (obj_set k v o)) = true.
Proof.
  cbn [numbers_are_doubles]. intros Hv Ho. unfold obj_set.
  destruct (has_key k o).
  - induction o as [|[k' v'] o IH]; [reflexivity|].
    cbn [forallb snd] in Ho. apply andb_true_iff in Ho.
    destruct Ho as [H1 H2]. cbn [replace_key].
    destruct (key_eqb k' k); cbn [forallb snd];
      apply andb_true_iff; auto.
  - destruct (array_index k) as [i|].
    + induction o as [|[k' v'] o IH]; [cbn; now rewrite Hv|].
      pose proof Ho as Ho'.
      cbn [forallb snd] in Ho. apply andb_true_iff in Ho.
      destruct Ho as [H1 H2]. cbn [insert_index].
      assert (Hall : forallb (fun kv => numbers_are_doubles (snd kv))
                       ((k, v) :: (k', v') :: o) = true).
      { cbn [forallb snd] in Ho' |- *. now rewrite Hv, Ho'. }
      destruct (array_index k') as [j|]; [|exact Hall].
      destruct (j <? i); [|exact Hall].
      cbn [forallb snd]. apply andb_true_iff. auto.
    + rewrite forallb_app. cbn [forallb snd]. now rewrite Ho, Hv.
Qed.

Lemma literal_doubles (w : string) (v v' : json) (s r : jsstring) :
  numbers_are_doubles v = true ->
  literal w v s = Some (v', r) -> numbers_are_doubles v' = true.
Proof.
  intros Hv. unfold literal. destruct (strip_prefix (str w) s); [|discriminate].
  now intros [= <- _].
Qed.

Lemma parser_doubles (n : nat) :
  (forall s v r,
     parse_value n s = Some (v, r) -> numbers_are_doubles v = true) /\
  (forall s l r,
     parse_elements n s = Some (l, r) ->
     forallb numbers_are_doubles l = true) /\
  (forall s o x r,
     parse_members n s o = Some (x, r) ->
     numbers_are_doubles (JObj o) = true ->
     numbers_are_doubles (JObj x) = true).
Proof.
  induction n as [|n (IHv & IHe & IHm)].
  { repeat split; intros; discriminate. }
  split; [|split].
  - intros s v r. rewrite parse_value_S.
    destruct (skip_ws s) as [|c r0]; [discriminate|].
    destruct (c =? 34).
    { destruct (parse_chars r0) as [[t r']|]; [|discriminate].
      now intros [= <- _]. }
    destruct (c =? 91).
    { destruct (expect 93 r0); [now intros [= <- _]|].
      destruct (parse_elements n r0) as [[l r']|] eqn:E; [|discriminate].
      intros [= <- _]. cbn [numbers_are_doubles]. now apply IHe in E. }
    destruct (c =? 123).
    { destruct (expect 125 r0); [now intros [= <- _]|].
      destruct (parse_members n r0 []) as [[o r']|] eqn:E; [|discriminate].
      intros [= <- _]. now apply IHm in E. }
    destruct (c =? 116); [now apply literal_doubles|].
    destruct (c =? 102); [now apply literal_doubles|].
    destruct (c =? 110); [now apply literal_doubles|].
    apply parse_number_double.
  - intros s l r. rewrite parse_elements_S.
    destruct (parse_value n s) as [[v r1]|] eqn:Ev; [|discriminate].
    apply IHv in Ev.
    destruct (expect 44 r1) as [r1'|].
    + destruct (parse_elements n r1') as [[l' r2]|] eqn:El; [|discriminate].
      apply IHe in El. intros [= <- _]. cbn [forallb]. now rewrite Ev, El.
    + destruct (expect 93 r1); [|discriminate].
      intros [= <- _]. cbn [forallb]. now rewrite Ev.
  - intros s o x r. rewrite parse_members_S.
    destruct (expect 34 s) as [r1|]; [|discriminate].
    destruct (parse_chars r1) as [[k r2]|]; [|discriminate].
    destruct (expect 58 r2) as [r3|]; [|discriminate].
    destruct (parse_value n r3) as [[v r4]|] eqn:Ev; [|discriminate].
    apply IHv in Ev.
    destruct (expect 44 r4) as [r5|].
    + intros H Ho. apply (IHm _ _ _ _ H). now apply obj_set_doubles.
    + destruct (expect 125 r4); [|discriminate].
      intros [= <- _] Ho. now apply obj_set_doubles.
Qed.

(** Every number in a value that [JSON.parse] returns is a double. *)
Lemma JSON_parse_doubles (text : jsstring) (v : json) :
  JSON_parse text = Return v -> numbers_are_doubles v = true.
Proof.
  unfold JSON_parse, parse.
  destruct (parse_value _ text) as [[v' r]|] eqn:E; [|discriminate].
  destruct (skip_ws r); [|discriminate]. intros [= <-].
  now apply (proj1 (parser_doubles _)) in E.
Qed.

(** ** Parsing what [JSON.stringify] wrote for a list of tasks *)

Ltac step_parser :=
  cbn [parse_value parse_elements parse_members expect skip_ws dropWhile
       isJsonSpace N.eqb Pos.eqb orb app].

Lemma pv_string (f : nat) (s rest : jsstring) :
  parse_value (S f) (quote s ++ rest) = Some (JStr s, rest).
Proof.
  unfold quote. cbn [app]. rewrite <- app_assoc. step_parser.
  now rewrite reads_quoteUnits.
Qed.

Lemma pv_bool (f : nat) (b : bool) (rest : jsstring) :
  parse_value (S f) (stringify (JBool b) ++ rest) = Some (JBool b, rest).
Proof. destruct b; reflexivity. Qed.

Lemma pv_number (f : nat) (x : number) (r : jsstring) :
  storable x = true ->
  parse_value (S f) (stringify (JNum x) ++ 125 :: r)
  = Some (JNum x, 125 :: r).
Proof.
  intros Hx. rewrite <- (parse_Number_toString x (125 :: r) Hx eq_refl).
  destruct (Number_toString_head x Hx) as (c & u & E & Hc).
  assert (Es : stringify (JNum x) = Number_toString x).
  { destruct x; [reflexivity|discriminate|discriminate]. }
  rewrite Es, E. cbn [app].
  assert (c = 45 \/ c = 48 \/ c = 49 \/ c = 50 \/ c = 51 \/ c = 52 \/ c = 53
          \/ c = 54 \/ c = 55 \/ c = 56 \/ c = 57) as Hcase by lia.
  repeat (destruct Hcase as [->|Hcase]; [reflexivity|]). now subst c.
Qed.

Lemma quote_cons (s : jsstring) : quote s = 34 :: quoteUnits None s ++ [34].
Proof. reflexivity. Qed.

Lemma quote_app (s r : jsstring) :
  quote s ++ r = 34 :: quoteUnits None s ++ 34 :: r.
Proof. unfold quote. cbn [app]. now rewrite <- app_assoc. Qed.

(** One member of an object, followed by a comma or by the closing brace. *)
Lemma pm_member_comma (f : nat) (k : jsstring) (v : json) (vs rest : jsstring)
    (o : list (jsstring * json)) :
  parse_value f (vs ++ 44 :: rest) = Some (v, 44 :: rest) ->
  parse_members (S f) (quote k ++ 58 :: vs ++ 44 :: rest) o =
  parse_members f rest (obj_set k v o).
Proof.
  intros Hv. rewrite quote_app. step_parser.
  rewrite reads_quoteUnits. step_parser. now rewrite Hv.
Qed.

Lemma pm_member_last (f : nat) (k : jsstring) (v : json) (vs rest : jsstring)
    (o : list (jsstring * json)) :
  parse_value f (vs ++ 125 :: rest) = Some (v, 125 :: rest) ->
  parse_members (S f) (quote k ++ 58 :: vs ++ 125 :: rest) o =
  Some (obj_set k v o, rest).
Proof.
  intros Hv. rewrite quote_app. step_parser.
  rewrite reads_quoteUnits. step_parser. now rewrite Hv.
Qed.

Lemma stringify_task (t : Task) (rest : jsstring) :
  stringify (task_json t) ++ rest =
  123 :: quote (str "id") ++ 58 :: quote (id t) ++ 44 ::
         quote (str "text") ++ 58 :: quote (text t) ++ 44 ::
         quote (str "done") ++ 58 :: stringify (JBool (done t)) ++ 44 ::
         quote (str "createdAt") ++ 58 ::
         stringify (JNum (createdAt t)) ++ 125 :: rest.
Proof.
  unfold task_json. cbn [stringify List.map join_comma fst snd].
  repeat (rewrite <- ?app_assoc, <- ?app_comm_cons). reflexivity.
Qed.

Lemma obj_set_task (t : Task) :
  obj_set (str "createdAt") (JNum (createdAt t))
    (obj_set (str "done") (JBool (done t))
       (obj_set (str "text") (JStr (text t))
          (obj_set (str "id") (JStr (id t)) []))) =
  [(str "id", JStr (id t)); (str "text", JStr (text t));
   (str "done", JBool (done t)); (str "createdAt", JNum (createdAt t))].
Proof. reflexivity. Qed.

Lemma parse_value_object (f : nat) (r : jsstring) :
  parse_value (S f) (123 :: 34 :: r) =
  let* (o, r') := parse_members f (34 :: r) [] in Some (JObj o, r').
Proof. reflexivity. Qed.

Lemma pv_task (f : nat) (t : Task) (rest : jsstring) :
  storable (createdAt t) = true ->
  parse_value (6 + f) (stringify (task_json t) ++ rest)
  = Some (task_json t, rest).
Proof.
  intros Hx. rewrite stringify_task. cbn [Nat.add].
  rewrite (quote_app (str "id")), parse_value_object, <- quote_app.
  rewrite (pm_member_comma _ _ (JStr (id t))) by apply pv_string.
  rewrite (pm_member_comma _ _ (JStr (text t))) by apply pv_string.
  rewrite (pm_member_comma _ _ (JBool (done t))) by apply pv_bool.
  rewrite (pm_member_last _ _ (JNum (createdAt t)))
    by now apply pv_number.
  now rewrite obj_set_task.
Qed.

Lemma parse_value_array (f : nat) (r : jsstring) :
  parse_value (S f) (91 :: 123 :: r) =
  let* (l, r') := parse_elements f (123 :: r) in Some (JArr l, r').
Proof. reflexivity. Qed.

Lemma pe_tasks (t : Task) (l : list Task) (f : nat) (rest : jsstring) :
  Forall (fun t => storable (createdAt t) = true) (t :: l) ->
  parse_elements (7 + length l + f)
    (join_comma (List.map task_text (t :: l)) ++ 93 :: rest)
  = Some (List.map task_json (t :: l), rest).
Proof.
  revert t f. induction l as [|u l IH]; intros t f Hl;
    pose proof (List.Forall_inv Hl) as Ht; cbv beta in Ht;
    pose proof (List.Forall_inv_tail Hl) as Hl'.
  - cbn [List.map join_comma length Nat.add]. rewrite parse_elements_S.
    unfold task_text. rewrite (pv_task f t _ Ht). reflexivity.
  - cbn [length]. replace (7 + S (length l) + f)%nat with (S (6 + (1 + length l + f)))%nat by lia.
    rewrite parse_elements_S.
    change (join_comma (List.map task_text (t :: u :: l)))
      with (task_text t ++ 44 :: join_comma (List.map task_text (u :: l))).
    rewrite <- app_assoc. cbn [app]. unfold task_text at 1.
    rewrite pv_task by exact Ht.
    replace (6 + (1 + length l + f))%nat with (7 + length l + f)%nat by lia.
    cbn [expect skip_ws dropWhile isJsonSpace N.eqb Pos.eqb orb].
    now rewrite IH.
Qed.

Lemma task_text_head (t : Task) : exists r, task_text t = 123 :: 34 :: r.
Proof.
  unfold task_text. eexists.
  rewrite <- (app_nil_r (stringify (task_json t))), stringify_task.
  rewrite quote_app. reflexivity.
Qed.

Lemma stringify_todos (l : list Task) :
  stringify (todos_json l) = 91 :: join_comma (List.map task_text l) ++ [93].
Proof.
  unfold todos_json. cbn [stringify]. now rewrite map_map.
Qed.

Lemma parse_stringify_todos (l : list Task) :
  Forall (fun t => storable (createdAt t) = true) l ->
  parse (stringify (todos_json l)) = Some (todos_json l).
Proof.
  intros Hl. destruct l as [|t l]; [reflexivity|].
  apply (parse_fuel_enough (S (7 + length l + 0)) _ []); [|reflexivity].
  rewrite stringify_todos.
  assert (Hr : exists r, join_comma (List.map task_text (t :: l)) ++ [93]
                         = 123 :: 34 :: r).
  { destruct (task_text_head t) as [r0 E].
    destruct l; cbn [List.map join_comma]; rewrite E; eexists; reflexivity. }
  destruct Hr as [r Hr]. rewrite Hr, parse_value_array, <- Hr.
  now rewrite pe_tasks.
Qed.

(** ** Loading and persisting *)

Lemma load_cases (ls : Storage) :
  load ls =
  match getItem ls todosKey with
  | Return (Some raw) =>
      if truthy raw
      then match JSON_parse raw with
           | Return v => Return v
           | Throw => Return (JArr [])
           end
      else Return (JArr [])
  | Return None | Throw => Return (JArr [])
  end.
Proof.
  unfold load, useLocalStorage_init.
  destruct (getItem ls todosKey) as [[raw|]|]; cbn [bind try_catch]; auto.
  destruct (truthy raw); [|reflexivity].
  now destruct (JSON_parse raw).
Qed.

(** A stored value that is JSON, but no array of tasks, is loaded as it
    is: [load] does not give the empty list. *)
Lemma load_keeps_json_of_other_shape :
  getItem ls_object todosKey = Return (Some (str "{}")) /\
  spec_parses_as_tasks (str "{}") = false /\
  load ls_object = Return (JObj []) /\
  load ls_object <> Return (JArr []).
Proof. vm_compute. repeat split. discriminate. Qed.

(** C1. [load] never throws. It gives the empty list when the storage
    cannot be read, when the key is absent, when the stored string is empty
    and when the stored string is no JSON text. A stored string that is
    JSON text is loaded as the value it denotes, whatever its shape. *)
Theorem load_absorbs_read_and_syntax_errors (ls : Storage) :
  (exists v, load ls = Return v) /\
  (getItem ls todosKey = Throw -> load ls = Return (JArr [])) /\
  (getItem ls todosKey = Return None -> load ls = Return (JArr [])) /\
  (forall raw,
     getItem ls todosKey = Return (Some raw) ->
     raw = [] \/ JSON_parse raw = Throw ->
     load ls = Return (JArr [])) /\
  (forall raw v,
     getItem ls todosKey = Return (Some raw) ->
     raw <> [] -> JSON_parse raw = Return v ->
     load ls = Return v).
Proof.
  rewrite load_cases. repeat split.
  - destruct (getItem ls todosKey) as [[raw|]|]; eauto.
    destruct (truthy raw); eauto. destruct (JSON_parse raw); eauto.
  - now intros ->.
  - now intros ->.
  - intros raw -> [-> | E]; [reflexivity|]. rewrite E.
    now destruct (truthy raw).
  - intros raw v -> Hraw E. rewrite E.
    now rewrite (proj2 (truthy_true raw) Hraw).
Qed.

Lemma todos_json_inj (l l' : list Task) :
  todos_json l' = todos_json l -> l' = l.
Proof.
  unfold todos_json. intros E. injection E as E. revert l' E.
  induction l as [|t l IH]; intros [|u l'] E; try discriminate; [reflexivity|].
  cbn [List.map] in E. injection E as Ei Et Ed Ec El.
  f_equal; [destruct t, u; simpl in *; congruence | now apply IH].
Qed.

Lemma stringify_todos_truthy (l : list Task) :
  truthy (JSON_stringify (todos_json l)) = true.
Proof. unfold JSON_stringify. now rewrite stringify_todos. Qed.

(** A [createdAt] that is no finite number is written as [null], and the
    negative zero as [0]: the list read back is another one. The storage
    gives such a task when its blob holds a number beyond the largest
    double, which [JSON.parse] reads as Infinity. *)
Lemma infinite_createdAt_is_not_read_back :
  load ls_overflow = Return (todos_json tasks_infinite) /\
  spec_task_array (todos_json tasks_infinite) = true /\
  JSON_parse (JSON_stringify (todos_json tasks_infinite))
  = Return (JArr [JObj [(str "id", JStr (str "a")); (str "text", JStr (str "x"));
                        (str "done", JBool false); (str "createdAt", JNull)]]) /\
  load (persist ls_fresh tasks_infinite)
  <> Return (todos_json tasks_infinite) /\
  spec_task_array (todos_json tasks_negative_zero) = true /\
  load (persist ls_fresh tasks_negative_zero)
  = Return (todos_json [mkTask (str "a") (str "x") false (ms 0)]) /\
  load (persist ls_fresh tasks_negative_zero)
  <> Return (todos_json tasks_negative_zero).
Proof. vm_compute. repeat split; discriminate. Qed.

(** C9. What [JSON.stringify] writes for a list of tasks (ids and texts any
    strings, [done] a boolean, [createdAt] a finite double other than the
    negative zero), [JSON.parse] reads back as that list, the same tasks in
    the same order; and when the write to the storage goes through, [load]
    on the storage gives that list. *)
Theorem persisted_todos_load_back (ls : Storage) (l : list Task) :
  Forall (fun t => storable (createdAt t) = true) l ->
  JSON_parse (JSON_stringify (todos_json l)) = Return (todos_json l) /\
  (forall l', todos_json l' = todos_json l -> l' = l) /\
  (setItem ls todosKey (JSON_stringify (todos_json l)) <> Throw ->
   load (persist ls l) = Return (todos_json l)).
Proof.
  intros Hl.
  assert (P : JSON_parse (JSON_stringify (todos_json l))
              = Return (todos_json l)).
  { unfold JSON_parse, JSON_stringify. now rewrite parse_stringify_todos. }
  repeat split.
  - exact P.
  - intros l'. apply todos_json_inj.
  - intros Hw. rewrite load_cases. unfold persist, useLocalStorage_effect.
    unfold setItem in *. destruct (denied ls) eqn:Hd; [congruence|].
    destruct (_ <=? _)%nat; [|congruence].
    unfold getItem. cbn [denied items].
    rewrite lookup_insert_eq, stringify_todos_truthy. now rewrite P.
Qed.

(** ** The theorems at concrete inputs *)

Lemma add_prepends_newest_first_witness :
  todos (add (str "   ") (str "t3") (ms 30) st_two) = todos st_two /\
  todos (add (str " Call mom ") (str "t3") (ms 30) st_two) =
    mkTask (str "t3") (str "Call mom") false (ms 30) :: todos st_two /\
  length (todos (add_all [(str "Buy milk", str "t1", ms 10);
                          (str "  ", str "t2", ms 20);
                          (str "Walk dog", str "t3", ms 30)] st_none)) = 2%nat.
Proof.
  split; [|split].
  - apply (proj1 (add_prepends_newest_first st_two)). reflexivity.
  - apply (proj1 (proj2 (add_prepends_newest_first st_two))
             (str " Call mom ") (str "t3") (ms 30)).
    vm_compute. discriminate.
  - apply (proj2 (proj2 (proj2 (add_prepends_newest_first st_none)))).
    reflexivity.
Defined.

Lemma toggle_flips_and_undoes_itself_witness :
  toggle (str "t9") st_two = st_two.
Proof.
  apply (proj1 (proj2 (toggle_flips_and_undoes_itself (str "t9") st_two))).
  vm_compute. intuition discriminate.
Defined.

Lemma edit_trims_replaces_or_removes_witness :
  todos (edit [] (str "x") st_empty_id) = todos st_empty_id /\
  todos (edit (str "t1") (str "  ") st_two) = todos (remove (str "t1") st_two) /\
  todos (edit [] (str "  ") st_two) = todos (remove [] st_two) /\
  todos (edit (str "t9") (str "x") st_two) = todos st_two.
Proof.
  split; [|split; [|split]].
  - refine (proj2 (edit_trims_replaces_or_removes [] (str "x") st_empty_id) _).
    reflexivity.
  - refine (proj1 (proj1 (edit_trims_replaces_or_removes
                            (str "t1") (str "  ") st_two) _) _).
    + left. vm_compute. discriminate.
    + reflexivity.
  - refine (proj1 (proj1 (edit_trims_replaces_or_removes
                            [] (str "  ") st_two) _) _).
    + right. vm_compute. intuition discriminate.
    + reflexivity.
  - refine (proj2 (proj2 (proj1 (edit_trims_replaces_or_removes
                                   (str "t9") (str "x") st_two) _)) _).
    + left. vm_compute. discriminate.
    + vm_compute. intuition discriminate.
Defined.

Lemma id_keyed_mutations_frame_witness :
  todos (edit (str "t1") (str "  ") st_two) =
    [mkTask (str "t2") (str "Walk dog") false (ms 20)] /\
  todos (edit [] (str "x") st_empty_id_pair) = todos st_empty_id_pair.
Proof.
  split.
  - refine (proj1 (proj1 (proj2 (proj2
              (id_keyed_mutations_frame (str "t1") st_two))) (str "  ") _) _).
    + left. vm_compute. discriminate.
    + reflexivity.
  - refine (proj2 (proj2 (proj2 (id_keyed_mutations_frame [] st_empty_id_pair)))
              (str "x") _).
    reflexivity.
Defined.

Lemma st_two_invariant : spec_invariant (todos st_two).
Proof.
  split.
  - repeat constructor; vm_compute; intuition discriminate.
  - repeat constructor; vm_compute; discriminate.
Qed.

Lemma mutations_preserve_invariants_witness :
  spec_invariant (todos (add (str " Call mom ") (str "t3") (ms 30) st_two)) /\
  spec_invariant (todos (edit (str "t1") (str " Buy oat milk") st_two)) /\
  spec_invariant (todos (clearCompleted st_two)).
Proof.
  pose proof (mutations_preserve_invariants st_two st_two_invariant) as H.
  split; [|split].
  - apply (proj1 H). vm_compute. intuition discriminate.
  - apply (proj1 (proj2 (proj2 (proj2 H)))).
  - apply (proj1 (proj2 (proj2 (proj2 (proj2 H))))).
Defined.

Lemma filtered_is_filter_and_search_witness :
  filtered asciiLower (setSearch (str "  ") (setFilter completed st_two)) =
  [mkTask (str "t1") (str "Buy milk") true (ms 10)].
Proof.
  apply (proj2 (proj2 (proj2
           (filtered_is_filter_and_search asciiLower
              (setSearch (str "  ") (setFilter completed st_two)))))).
  - reflexivity.
  - reflexivity.
Defined.

Lemma active_completed_partition_ids_witness :
  let view k := filtered asciiLower (setSearch [] (setFilter k st_two)) in
  let idset (l : list Task) : gset (list N) := list_to_set (ids l) in
  idset (view active) ## idset (view completed) /\
  idset (view active) ∪ idset (view completed) = idset (todos st_two).
Proof.
  pose proof (active_completed_partition_ids asciiLower st_two eq_refl) as H.
  split.
  - apply (proj1 H). repeat constructor; vm_compute; intuition discriminate.
  - apply (proj2 H).
Defined.

Lemma load_absorbs_read_and_syntax_errors_witness :
  load ls_fresh = Return (JArr []) /\
  load ls_garbage = Return (JArr []) /\
  load ls_object = Return (JObj []).
Proof.
  split; [|split].
  - apply (proj1 (proj2 (proj2 (load_absorbs_read_and_syntax_errors ls_fresh)))).
    vm_compute. reflexivity.
  - apply (proj1 (proj2 (proj2 (proj2
              (load_absorbs_read_and_syntax_errors ls_garbage))))
             (str "[{oops")).
    + vm_compute. reflexivity.
    + right. vm_compute. reflexivity.
  - apply (proj2 (proj2 (proj2 (proj2
              (load_absorbs_read_and_syntax_errors ls_object))))
             (str "{}")).
    + vm_compute. reflexivity.
    + vm_compute. discriminate.
    + vm_compute. reflexivity.
Defined.

Lemma persisted_todos_load_back_witness :
  load (persist ls_fresh (todos st_two)) = Return (todos_json (todos st_two)) /\
  load (persist ls_fresh tasks_odd_times)
  = Return (todos_json tasks_odd_times).
Proof.
  split.
  - refine (proj2 (proj2 (persisted_todos_load_back ls_fresh (todos st_two)
                            _)) _).
    + repeat constructor.
    + vm_compute. discriminate.
  - refine (proj2 (proj2 (persisted_todos_load_back ls_fresh tasks_odd_times
                            _)) _).
    + repeat constructor.
    + vm_compute. discriminate.
Defined.

(** ** The scenarios of the specification *)

Example scenario_milk_and_dog :
  let st1 := add (str "Buy milk") (str "t1") (ms 10) st_none in
  let st2 := add (str "Walk dog") (str "t2") (ms 20) st1 in
  let st3 := toggle (str "t1") st2 in
  List.map text (todos st2) = [str "Walk dog"; str "Buy milk"] /\
  List.map text (filtered asciiLower (setFilter completed st3))
    = [str "Buy milk"] /\
  stats st3 = Stats.mk 2 1 1.
Proof. vm_compute. repeat split. Qed.

Example scenario_edit_to_blank :
  todos (edit (str "t1") (str "   ") (add (str "Task") (str "t1") (ms 10) st_none))
  = [].
Proof. reflexivity. Qed.

(** * Further properties of the component *)

Import Session.

(** ** Clearing the completed tasks *)

Lemma length_filter_split {A} (p : A -> bool) (l : list A) :
  length l =
  (length (List.filter p l) + length (List.filter (fun a => negb (p a)) l))%nat.
Proof. symmetry. apply List.filter_length. Qed.

Lemma filter_idem {A} (p : A -> bool) (l : list A) :
  List.filter p (List.filter p l) = List.filter p l.
Proof. apply filter_all. intros a Ha. now apply filter_In in Ha. Qed.

(** X1. [clearCompleted] keeps the tasks that are not done, in their
    order, and nothing else; afterwards [stats] counts no completed task
    and as many active tasks as before; a second call changes nothing. *)
Theorem clearCompleted_keeps_the_active (st : State) :
  (forall t, In t (todos (clearCompleted st)) <->
             In t (todos st) /\ done t = false) /\
  sublist (todos (clearCompleted st)) (todos st) /\
  Stats.completed (stats (clearCompleted st)) = 0%Z /\
  Stats.active (stats (clearCompleted st)) = Stats.active (stats st) /\
  Stats.total (stats (clearCompleted st)) = Stats.active (stats st) /\
  clearCompleted (clearCompleted st) = clearCompleted st.
Proof.
  assert (Hnone : List.filter (fun t => done t)
                    (List.filter (fun t => negb (done t)) (todos st)) = []).
  { apply filter_none. intros t Ht. apply filter_In in Ht.
    destruct Ht as [_ Ht]. now destruct (done t). }
  split; [|split; [|split; [|split; [|split]]]].
  - intros t. unfold clearCompleted. cbn [todos setTodos].
    rewrite filter_In. now destruct (done t); intuition.
  - apply filter_sublist.
  - unfold stats, clearCompleted. cbn [todos setTodos Stats.completed].
    now rewrite Hnone.
  - unfold stats, clearCompleted. cbn [todos setTodos Stats.active].
    rewrite Hnone. rewrite (length_filter_split (fun t => done t) (todos st)).
    cbn [length]. lia.
  - unfold stats, clearCompleted. cbn [todos setTodos Stats.active Stats.total].
    rewrite (length_filter_split (fun t => done t) (todos st)). lia.
  - unfold clearCompleted. cbn [todos setTodos].
    rewrite filter_idem. reflexivity.
Qed.

(** ** Removing *)

Lemma filter_comm {A} (p q : A -> bool) (l : list A) :
  List.filter p (List.filter q l) = List.filter q (List.filter p l).
Proof.
  rewrite !filter_filter_andb. apply filter_ext. intros a. apply andb_comm.
Qed.

(** X2. After [remove(id)] no task has the id [id], and the tasks of other
    ids are all still there, in their order; removing an id that no task
    has leaves the state as it is, so a second [remove(id)] does nothing;
    two removals give the same state in either order. *)
Theorem remove_deletes_every_match (i : jsstring) (st : State) :
  ~ In i (ids (todos (remove i st))) /\
  (forall t, In t (todos (remove i st)) <-> In t (todos st) /\ id t <> i) /\
  sublist (todos (remove i st)) (todos st) /\
  (~ In i (ids (todos st)) -> remove i st = st) /\
  remove i (remove i st) = remove i st /\
  (forall j, remove i (remove j st) = remove j (remove i st)).
Proof.
  assert (Hin : forall t, In t (todos (remove i st)) <->
                          In t (todos st) /\ id t <> i).
  { intros t. rewrite todos_remove, filter_In.
    now rewrite bool_decide_eq_true. }
  assert (Hno : forall s, ~ In i (ids (todos s)) -> remove i s = s).
  { intros s H. unfold remove. rewrite filter_all; [apply setTodos_same|].
    intros t Ht. apply negb_true_iff, id_eqb_neq. intros E. apply H.
    apply in_ids. now exists t. }
  assert (Hgone : forall s, ~ In i (ids (todos (remove i s)))).
  { intros s H. apply in_ids in H. destruct H as [t [Ht E]].
    rewrite todos_remove in Ht. apply filter_In in Ht.
    destruct Ht as [_ Ht]. now apply bool_decide_eq_true in Ht. }
  split; [|split; [|split; [|split; [|split]]]].
  - apply Hgone.
  - exact Hin.
  - unfold remove. cbn [todos setTodos]. apply filter_sublist.
  - apply Hno.
  - apply Hno, Hgone.
  - intros j. unfold remove. cbn [todos setTodos inputText filter search
                                  editingId editingText].
    now rewrite filter_comm.
Qed.

(** ** The counts *)

(** X3. The three counts of [stats] are those of the three views with the
    empty search: [total] is the length of the view All, [completed] of the
    view Completed, and [active], which the code gets by subtraction, of
    the view Active; so [total = completed + active] and none is
    negative. *)
Theorem stats_count_the_views
    (toLowerCase : jsstring -> jsstring) (st : State) :
  toLowerCase [] = [] ->
  let view k := filtered toLowerCase (setSearch [] (setFilter k st)) in
  Stats.total (stats st) = Z.of_nat (length (view all)) /\
  Stats.completed (stats st) = Z.of_nat (length (view completed)) /\
  Stats.active (stats st) = Z.of_nat (length (view active)) /\
  Stats.total (stats st)
    = (Stats.completed (stats st) + Stats.active (stats st))%Z.
Proof.
  intros H0 view.
  assert (Hv : forall k, view k = List.filter (FILTERS k) (todos st)).
  { intros k. unfold view, filtered.
    cbn [search setSearch setFilter todos filter].
    change (trim []) with (@nil N). now rewrite H0. }
  rewrite !Hv. unfold stats. cbn [Stats.total Stats.completed Stats.active].
  pose proof (length_filter_split (fun t => done t) (todos st)) as L.
  change (List.filter (FILTERS completed) (todos st))
    with (List.filter (fun t => done t) (todos st)).
  change (List.filter (FILTERS active) (todos st))
    with (List.filter (fun t => negb (done t)) (todos st)).
  rewrite (filter_all (FILTERS all)) by reflexivity.
  repeat split; lia.
Qed.

Lemma stats_count_the_views_witness :
  Stats.active (stats st_two)
  = Z.of_nat (length (filtered asciiLower
                        (setSearch [] (setFilter active st_two)))).
Proof.
  refine (proj1 (proj2 (proj2 (stats_count_the_views asciiLower st_two _)))).
  reflexivity.
Defined.

(** ** Adding, then taking back *)

(** X4. A task just added under an id that no other task has is taken out
    again by [remove] of that id, and, when the id is not the empty string,
    by an [edit] to a blank text: the list is the one before the [add]. *)
Theorem add_then_remove_restores
    (raw newId : jsstring) (now : number) (st : State) :
  ~ In newId (ids (todos st)) ->
  todos (remove newId (add raw newId now st)) = todos st /\
  (forall blank,
     newId <> [] -> trim blank = [] ->
     todos (edit newId blank (add raw newId now st)) = todos st).
Proof.
  intros Hfresh.
  assert (R : todos (remove newId (add raw newId now st)) = todos st).
  { rewrite todos_remove, todos_add. unfold creates, created.
    assert (Hall : List.filter (fun t => bool_decide (id t <> newId)) (todos st)
                   = todos st).
    { apply filter_all. intros t Ht. apply bool_decide_eq_true. intros E.
      apply Hfresh. apply in_ids. now exists t. }
    destruct (truthy (trim raw)); [|exact Hall].
    cbn [List.filter id]. rewrite bool_decide_eq_false_2 by auto. exact Hall. }
  split; [exact R|].
  intros blank Hid Hb. rewrite todos_edit by exact Hid.
  rewrite (proj2 (truthy_false _) Hb). now rewrite <- todos_remove.
Qed.

Lemma add_then_remove_restores_witness :
  todos (remove (str "t3") (add (str "Call mom") (str "t3") (ms 30) st_two))
    = todos st_two /\
  todos (edit (str "t3") (str "  ") (add (str "Call mom") (str "t3") (ms 30) st_two))
    = todos st_two.
Proof.
  assert (F : ~ In (str "t3") (ids (todos st_two)))
    by (vm_compute; intuition discriminate).
  split.
  - refine (proj1 (add_then_remove_restores _ _ _ st_two F)).
  - refine (proj2 (add_then_remove_restores _ _ _ st_two F) (str "  ") _ _).
    + vm_compute. discriminate.
    + reflexivity.
Defined.

Lemma remove_deletes_every_match_witness :
  remove (str "t9") st_two = st_two.
Proof.
  refine (proj1 (proj2 (proj2 (proj2
            (remove_deletes_every_match (str "t9") st_two)))) _).
  vm_compute. intuition discriminate.
Defined.

(** The view as two filters, the second one the search. *)
Lemma filtered_as_filters (toLowerCase : jsstring -> jsstring) (st : State) :
  let q := toLowerCase (trim (search st)) in
  filtered toLowerCase st =
  List.filter (fun t => negb (truthy q) || includes (toLowerCase (text t)) q)
    (List.filter (FILTERS (filter st)) (todos st)).
Proof.
  intros q. unfold filtered. fold q. destruct (truthy q); cbn [negb orb].
  - reflexivity.
  - symmetry. now apply filter_all.
Qed.

(** ** Editing a row *)

Lemma filter_own_id (l : list Task) (todo : Task) :
  List.NoDup (ids l) -> In todo l ->
  List.filter (fun t => bool_decide (id t = id todo)) l = [todo].
Proof.
  unfold ids. induction l as [|t l IH]; cbn [List.map]; intros Hnd Hin;
    [destruct Hin|].
  apply NoDup_cons_iff in Hnd. destruct Hnd as [Hnot Hnd].
  cbn [List.filter]. destruct Hin as [->|Hin].
  - rewrite bool_decide_eq_true_2 by reflexivity. f_equal.
    apply filter_none. intros u Hu. apply bool_decide_eq_false. intros E.
    apply Hnot. rewrite <- E. now apply in_map.
  - rewrite bool_decide_eq_false_2; [now apply IH|].
    intros E. apply Hnot. rewrite E. now apply in_map.
Qed.

Lemma isEditing_startEdit (todo : Task) (st : State) (t : Task) :
  isEditing (startEdit todo st) t = bool_decide (id t = id todo).
Proof.
  unfold isEditing. cbn [startEdit editingId setEditingText setEditingId].
  apply bool_decide_ext. split; [now intros [= ->] | now intros ->].
Qed.

(** X5. In a list with pairwise distinct ids, clicking the text of a row
    of the view shows exactly that row as an input; after [cancelEdit], and
    after [saveEdit] unless the task's id is the empty string, no row is
    shown as an input and the edited text is empty. *)
Theorem startEdit_opens_one_row
    (toLowerCase : jsstring -> jsstring) (todo : Task) (st : State) :
  List.NoDup (ids (todos st)) -> In todo (filtered toLowerCase st) ->
  editingRows toLowerCase (startEdit todo st) = [todo] /\
  (forall typed,
     let st' := cancelEdit (setEditingText typed (startEdit todo st)) in
     editingRows toLowerCase st' = [] /\ editingText st' = [] /\
     todos st' = todos st) /\
  (forall typed,
     id todo <> [] ->
     let st' := saveEdit (setEditingText typed (startEdit todo st)) in
     editingRows toLowerCase st' = [] /\ editingText st' = []).
Proof.
  intros Hnd Hin.
  assert (Hnone : forall s, editingId s = None ->
                            editingRows toLowerCase s = []).
  { intros s E. unfold editingRows. apply filter_none. intros t _.
    unfold isEditing. rewrite E. now apply bool_decide_eq_false. }
  split; [|split].
  - unfold editingRows.
    change (filtered toLowerCase (startEdit todo st))
      with (filtered toLowerCase st).
    rewrite <- (filter_own_id (filtered toLowerCase st) todo); [| |exact Hin].
    + apply filter_ext. intros t. apply isEditing_startEdit.
    + rewrite filtered_as_filters. now do 2 apply NoDup_ids_filter.
  - intros typed st'. subst st'. split; [|split]; try reflexivity.
    now apply Hnone.
  - intros typed Hid st'. subst st'.
    assert (E : editingId (saveEdit (setEditingText typed (startEdit todo st)))
                = None /\
                editingText (saveEdit (setEditingText typed (startEdit todo st)))
                = []).
    { unfold saveEdit.
      cbn [startEdit editingId setEditingText setEditingId falsyId].
      destruct (id todo) as [|c i]; [congruence|]. cbn [truthy negb].
      split; reflexivity. }
    destruct E as [E1 E2]. split; [now apply Hnone | exact E2].
Qed.

Lemma startEdit_opens_one_row_witness :
  editingRows asciiLower
    (startEdit (mkTask (str "t1") (str "Buy milk") true (ms 10)) st_two)
  = [mkTask (str "t1") (str "Buy milk") true (ms 10)].
Proof.
  refine (proj1 (startEdit_opens_one_row asciiLower _ st_two _ _)).
  - repeat constructor; vm_compute; intuition discriminate.
  - vm_compute. right. left. reflexivity.
Defined.

(** X6. In a list with pairwise distinct ids, clicking the text of a task
    whose text is what [trim] returns and is not empty, and saving without
    typing, leaves the list as it was. *)
Theorem startEdit_saveEdit_changes_nothing (todo : Task) (st : State) :
  List.NoDup (ids (todos st)) -> In todo (todos st) ->
  trim (text todo) = text todo -> text todo <> [] ->
  todos (saveEdit (startEdit todo st)) = todos st.
Proof.
  intros Hnd Hin Htrim Hne.
  change (saveEdit (startEdit todo st))
    with (edit (id todo) (text todo) (setEditingText (text todo) st)).
  destruct (id todo) as [|c i] eqn:Ei; [reflexivity|].
  rewrite todos_edit by discriminate. rewrite Htrim.
  rewrite (proj2 (truthy_true _) Hne). cbn [todos setEditingText].
  apply map_id_on. intros t Ht.
  destruct (bool_decide (id t = c :: i)) eqn:E; [|reflexivity].
  apply bool_decide_eq_true in E.
  assert (t = todo) as ->.
  { apply (NoDup_ids_inj (todos st)); auto. congruence. }
  clear. now destruct todo.
Qed.

Lemma startEdit_saveEdit_changes_nothing_witness :
  todos (saveEdit (startEdit (mkTask (str "t1") (str "Buy milk") true (ms 10))
                     st_two))
  = todos st_two.
Proof.
  refine (startEdit_saveEdit_changes_nothing _ st_two _ _ _ _).
  - repeat constructor; vm_compute; intuition discriminate.
  - right. left. reflexivity.
  - reflexivity.
  - vm_compute. discriminate.
Defined.

(** ** Complete all, reset all *)

(** X7. [toggleAll(b)] makes earlier [toggle] and [toggleAll] calls
    irrelevant; "Complete all" followed by "Clear completed" empties the
    list, and "Reset all" followed by "Clear completed" removes no task. *)
Theorem toggleAll_overrides (b : bool) (st : State) :
  (forall i, toggleAll b (toggle i st) = toggleAll b st) /\
  (forall c, toggleAll b (toggleAll c st) = toggleAll b st) /\
  todos (clearCompleted (toggleAll true st)) = [] /\
  todos (clearCompleted (toggleAll false st)) = todos (toggleAll false st) /\
  length (todos (clearCompleted (toggleAll false st))) = length (todos st).
Proof.
  split; [|split; [|split; [|split]]].
  - intros i. unfold toggleAll, toggle. cbn [todos setTodos inputText filter
                                             search editingId editingText].
    rewrite map_map.
    rewrite (map_ext _ (fun t => mkTask (id t) (text t) b (createdAt t)));
      [reflexivity|].
    intros t. now destruct (id_eqb (id t) i).
  - intros c. unfold toggleAll. cbn [todos setTodos inputText filter
                                      search editingId editingText].
    rewrite map_map. reflexivity.
  - unfold clearCompleted, toggleAll. cbn [todos setTodos].
    apply filter_none. intros t Ht. apply in_map_iff in Ht.
    now destruct Ht as [u [<- _]].
  - unfold clearCompleted, toggleAll. cbn [todos setTodos].
    apply filter_all. intros t Ht. apply in_map_iff in Ht.
    now destruct Ht as [u [<- _]].
  - unfold clearCompleted, toggleAll. cbn [todos setTodos].
    rewrite filter_all, length_map; [reflexivity|].
    intros t Ht. apply in_map_iff in Ht. now destruct Ht as [u [<- _]].
Qed.

(** X8. [toggle], [toggleAll] and an [edit] to a text that is not blank
    keep the length of the list and, position by position, the id and the
    creation time of each task. *)
Theorem ids_and_times_stay_in_place (st : State) :
  let key (l : list Task) := List.map (fun t => (id t, createdAt t)) l in
  (forall i, key (todos (toggle i st)) = key (todos st)) /\
  (forall b, key (todos (toggleAll b st)) = key (todos st)) /\
  (forall i new, trim new <> [] ->
                 key (todos (edit i new st)) = key (todos st)).
Proof.
  intros key. split; [|split].
  - intros i. unfold key, toggle. cbn [todos setTodos]. rewrite map_map.
    apply map_ext. intros t. now destruct (id_eqb (id t) i).
  - intros b. unfold key, toggleAll. cbn [todos setTodos]. rewrite map_map.
    reflexivity.
  - intros i new Hn. destruct i as [|c i]; [reflexivity|].
    rewrite todos_edit by discriminate. rewrite (proj2 (truthy_true _) Hn).
    unfold key. rewrite map_map. apply map_ext. intros t.
    now destruct (bool_decide (id t = c :: i)).
Qed.

Lemma ids_and_times_stay_in_place_witness :
  List.map (fun t => (id t, createdAt t))
    (todos (edit (str "t1") (str " Buy oat milk ") st_two))
  = List.map (fun t => (id t, createdAt t)) (todos st_two).
Proof.
  refine (proj2 (proj2 (ids_and_times_stay_in_place st_two))
            (str "t1") (str " Buy oat milk ") _).
  vm_compute. discriminate.
Defined.

(** ** Writing to the storage *)

Lemma load_after_write (ls : Storage) (l : list Task) :
  Forall (fun t => storable (createdAt t) = true) l ->
  setItem ls todosKey (JSON_stringify (todos_json l)) <> Throw ->
  load (persist ls l) = Return (todos_json l).
Proof.
  intros Hl Hw. rewrite load_cases. unfold persist, useLocalStorage_effect.
  unfold setItem in *. destruct (denied ls) eqn:Hd; [congruence|].
  destruct (_ <=? _)%nat; [|congruence].
  unfold getItem. cbn [denied items].
  rewrite lookup_insert_eq, stringify_todos_truthy.
  unfold JSON_parse, JSON_stringify. now rewrite parse_stringify_todos.
Qed.

Lemma stored_after_write (ls : Storage) (l : list Task) :
  setItem ls todosKey (JSON_stringify (todos_json l)) <> Throw ->
  getItem (persist ls l) todosKey
  = Return (Some (JSON_stringify (todos_json l))).
Proof.
  intros Hw. unfold persist, useLocalStorage_effect.
  unfold setItem in *. destruct (denied ls) eqn:Hd; [congruence|].
  destruct (_ <=? _)%nat; [|congruence].
  unfold getItem. cbn [denied items]. now rewrite lookup_insert_eq.
Qed.

(** X10. Each write replaces the whole blob under the key: after two
    writes, the second of which went through, the storage holds the text
    of the second list, whatever the first list was, and [load] gives the
    second list (its [createdAt] finite doubles other than the negative
    zero); and a write leaves every other key of the storage, and its
    access and quota, as they were. *)
Theorem last_write_wins (ls : Storage) (l1 l2 : list Task) :
  (Forall (fun t => storable (createdAt t) = true) l2 ->
   setItem (persist ls l1) todosKey (JSON_stringify (todos_json l2)) <> Throw ->
   load (persist (persist ls l1) l2) = Return (todos_json l2)) /\
  (forall key value k,
     k <> key ->
     getItem (useLocalStorage_effect ls key value) k = getItem ls k) /\
  (forall key value,
     denied (useLocalStorage_effect ls key value) = denied ls /\
     quota (useLocalStorage_effect ls key value) = quota ls) /\
  (setItem (persist ls l1) todosKey (JSON_stringify (todos_json l2)) <> Throw ->
   getItem (persist (persist ls l1) l2) todosKey
   = Return (Some (JSON_stringify (todos_json l2)))).
Proof.
  split; [|split; [|split]]; [| | |apply stored_after_write].
  - apply load_after_write.
  - intros key value k Hk. unfold useLocalStorage_effect, setItem.
    destruct (denied ls) eqn:Hd; [reflexivity|].
    destruct (_ <=? _)%nat; [|reflexivity].
    unfold getItem. cbn [denied items]. rewrite Hd.
    now rewrite lookup_insert_ne.
  - intros key value. unfold useLocalStorage_effect, setItem.
    destruct (denied ls) eqn:Hd; [now rewrite Hd|].
    destruct (_ <=? _)%nat; cbn [denied quota]; auto.
Qed.

Lemma last_write_wins_witness :
  load (persist (persist ls_fresh (todos st_two)) (todos st_empty_id))
  = Return (todos_json (todos st_empty_id)) /\
  getItem (persist ls_fresh (todos st_two)) (str "theme")
  = getItem ls_fresh (str "theme").
Proof.
  split.
  - refine (proj1 (last_write_wins ls_fresh (todos st_two)
                     (todos st_empty_id)) _ _).
    + repeat constructor.
    + vm_compute. discriminate.
  - refine (proj1 (proj2 (last_write_wins ls_fresh [] []))
              todosKey (todos_json (todos st_two)) (str "theme") _).
    vm_compute. discriminate.
Defined.

(** ** Generated ids *)

Lemma number_to_string_inj (z1 z2 : Z) (r1 r2 : jsstring) :
  number_to_string z1 0 ++ 95 :: r1 = number_to_string z2 0 ++ 95 :: r2 ->
  z1 = z2 /\ r1 = r2.
Proof.
  unfold number_to_string.
  set (a1 := Z.abs_N z1). set (a2 := Z.abs_N z2).
  assert (Hrd : forall a r,
            read_digits (units_of_uint (N.to_uint a) ++ 95 :: r)
            = (N.to_uint a, 95 :: r)).
  { intros a r. apply read_digits_units. reflexivity. }
  assert (Hsame : units_of_uint (N.to_uint a1) ++ 95 :: r1
                  = units_of_uint (N.to_uint a2) ++ 95 :: r2 ->
                  a1 = a2 /\ r1 = r2).
  { intros E. apply (f_equal read_digits) in E. rewrite !Hrd in E.
    injection E as E1 E2. split; [|exact E2].
    now apply DecimalN.Unsigned.to_uint_inj. }
  destruct (units_head (N.to_uint a1) (to_uint_not_nil a1))
    as (c1 & u1 & E1 & Hc1).
  destruct (units_head (N.to_uint a2) (to_uint_not_nil a2))
    as (c2 & u2 & E2 & Hc2).
  destruct (Z.ltb_spec z1 0) as [H1|H1], (Z.ltb_spec z2 0) as [H2|H2];
    cbn [app]; intros E.
  - injection E as E. destruct (Hsame E) as [Ea Er]. subst a1 a2.
    split; [lia|exact Er].
  - rewrite E2 in E. cbn [app] in E. injection E as E _. lia.
  - rewrite E1 in E. cbn [app] in E. injection E as E _. lia.
  - destruct (Hsame E) as [Ea Er]. subst a1 a2. split; [lia|exact Er].
Qed.

(** X11. Where the platform has no [crypto.randomUUID], [uid()] returns a
    string that starts with [t_], so it is never the empty string that
    [saveEdit] takes for "not editing"; and two such ids are the same
    string only when made in the same millisecond with the same random
    suffix. Where the platform has it, [uid()] is what it returns. *)
Theorem uid_fallback_ids_differ (now1 now2 : Z) (r1 r2 : jsstring) :
  (forall u, uid (Some u) now1 r1 = u) /\
  startsWith (uid None now1 r1) (str "t_") = true /\
  falsyId (Some (uid None now1 r1)) = false /\
  (uid None now1 r1 = uid None now2 r2 ->
   now1 = now2 /\ skipn 2 r1 = skipn 2 r2) /\
  (now1 <> now2 -> uid None now1 r1 <> uid None now2 r2).
Proof.
  assert (Inj : uid None now1 r1 = uid None now2 r2 ->
                now1 = now2 /\ skipn 2 r1 = skipn 2 r2).
  { unfold uid. change (str "t_") with [116; 95]. change (str "_") with [95].
    cbn [app]. intros E. injection E as E.
    assert (E' : number_to_string now1 0 ++ 95 :: skipn 2 r1
                 = number_to_string now2 0 ++ 95 :: skipn 2 r2) by exact E.
    clear E. rename E' into E.
    now apply number_to_string_inj. }
  split; [|split; [|split; [|split]]].
  - reflexivity.
  - reflexivity.
  - reflexivity.
  - exact Inj.
  - intros Hn E. apply Hn. now apply Inj.
Qed.

Lemma uid_fallback_ids_differ_witness :
  uid None 1700000000000 (str "0.8d3f2a") <>
  uid None 1700000000001 (str "0.8d3f2a").
Proof.
  refine (proj2 (proj2 (proj2 (proj2
            (uid_fallback_ids_differ 1700000000000 1700000000001
               (str "0.8d3f2a") (str "0.8d3f2a"))))) _).
  discriminate.
Defined.

(** ** Sessions *)

Lemma run_cons (a : Action) (acts : list Action) (st : State) :
  run (a :: acts) st = run acts (step a st).
Proof. reflexivity. Qed.

Lemma trimmed_filter (p : Task -> bool) (l : list Task) :
  trimmed_texts l -> trimmed_texts (List.filter p l).
Proof.
  unfold trimmed_texts. rewrite !List.Forall_forall. intros H t Ht.
  apply filter_In in Ht. apply H, Ht.
Qed.

Lemma trimmed_map (f : Task -> Task) (l : list Task) :
  (forall t, trim (text t) = text t /\ text t <> [] ->
             trim (text (f t)) = text (f t) /\ text (f t) <> []) ->
  trimmed_texts l -> trimmed_texts (List.map f l).
Proof.
  unfold trimmed_texts. intros Hf. rewrite !List.Forall_forall. intros H t Ht.
  apply in_map_iff in Ht. destruct Ht as [u [<- Hu]]. apply Hf, H, Hu.
Qed.

Lemma step_keeps_texts_trimmed (a : Action) (st : State) :
  trimmed_texts (todos st) -> trimmed_texts (todos (step a st)).
Proof.
  intros H. destruct a; cbn [step]; try exact H.
  - unfold addTodo. destruct (truthy (trim (inputText st))) eqn:E;
      cbn [negb]; [|exact H].
    cbn [todos setText setTodos]. constructor; [|exact H].
    cbn [text]. split; [apply trim_trim | now apply truthy_true].
  - unfold toggle. cbn [todos setTodos]. apply trimmed_map; [|exact H].
    intros t Ht. now destruct (id_eqb (id t) i).
  - unfold remove. cbn [todos setTodos]. now apply trimmed_filter.
  - unfold clearCompleted. cbn [todos setTodos]. now apply trimmed_filter.
  - unfold saveEdit. destruct (falsyId (editingId st)); [exact H|].
    destruct (truthy (trim (editingText st))) eqn:E; cbn [negb];
      cbn [todos setTodos setEditingText setEditingId].
    + apply trimmed_map; [|exact H]. intros t Ht.
      destruct (isEditing st t); [|exact Ht]. cbn [text].
      split; [apply trim_trim | now apply truthy_true].
    + now apply trimmed_filter.
  - unfold toggleAll. cbn [todos setTodos]. apply trimmed_map; [|exact H].
    intros t Ht. exact Ht.
Qed.

Lemma run_keeps_texts_trimmed (acts : list Action) (st : State) :
  trimmed_texts (todos st) -> trimmed_texts (todos (run acts st)).
Proof.
  revert st. induction acts as [|a acts IH]; intros st Hs; [exact Hs|].
  rewrite run_cons. apply IH. now apply step_keeps_texts_trimmed.
Qed.

(** X12. Whatever the events of a session, every task's text stays what
    [trim] returns (no white space at either end) and is never empty, if
    that holds of the loaded list; it holds in every state of a session
    that starts with the empty list. *)
Theorem sessions_keep_texts_trimmed (acts : list Action) (st : State) :
  (trimmed_texts (todos st) -> trimmed_texts (todos (run acts st))) /\
  trimmed_texts (todos (run acts (initialState []))).
Proof.
  split; [apply run_keeps_texts_trimmed|].
  apply run_keeps_texts_trimmed. constructor.
Qed.

Lemma sessions_keep_texts_trimmed_witness :
  trimmed_texts (todos (run acts_two st_two)).
Proof.
  refine (proj1 (sessions_keep_texts_trimmed acts_two st_two) _).
  repeat constructor; vm_compute; discriminate.
Defined.

Lemma step_provenance (a : Action) (st : State) (t' : Task) :
  In t' (todos (step a st)) ->
  (exists t, In t (todos st) /\ id t = id t' /\ createdAt t = createdAt t') \/
  a = AddTodo (id t') (createdAt t').
Proof.
  assert (Same : In t' (todos st) ->
                 exists t, In t (todos st) /\ id t = id t' /\
                           createdAt t = createdAt t') by eauto.
  assert (Filt : forall p, In t' (List.filter p (todos st)) ->
                 exists t, In t (todos st) /\ id t = id t' /\
                           createdAt t = createdAt t').
  { intros p H. apply filter_In in H. apply Same, H. }
  assert (Map : forall f : Task -> Task,
            (forall t, id (f t) = id t /\ createdAt (f t) = createdAt t) ->
            In t' (List.map f (todos st)) ->
            exists t, In t (todos st) /\ id t = id t' /\
                      createdAt t = createdAt t').
  { intros f Hf H. apply in_map_iff in H. destruct H as [t [<- Ht]].
    exists t. destruct (Hf t) as [-> ->]. auto. }
  destruct a; cbn [step]; try (intros H; left; apply Same, H).
  - unfold addTodo. destruct (truthy (trim (inputText st))); cbn [negb];
      [|intros H; left; apply Same, H].
    cbn [todos setText setTodos]. intros [<-|H]; [right; reflexivity|].
    left. apply Same, H.
  - unfold toggle. cbn [todos setTodos]. intros H. left.
    eapply Map; cycle 1; [exact H|].
    intros t. cbv beta. now destruct (id_eqb (id t) i).
  - unfold remove. cbn [todos setTodos]. intros H. left. apply (Filt _ H).
  - unfold clearCompleted. cbn [todos setTodos]. intros H. left.
    apply (Filt _ H).
  - unfold saveEdit. destruct (falsyId (editingId st));
      [intros H; left; apply Same, H|].
    destruct (truthy (trim (editingText st))); cbn [negb];
      cbn [todos setTodos setEditingText setEditingId]; intros H; left.
    + eapply Map; cycle 1; [exact H|].
      intros t. cbv beta. now destruct (isEditing st t).
    + apply (Filt _ H).
  - unfold toggleAll. cbn [todos setTodos]. intros H. left.
    eapply Map; cycle 1; [exact H|]. intros t. split; reflexivity.
Qed.

(** X13. A task's id and creation time are given once: every task of the
    list after a session has the id and the creation time of a task of the
    list the session started with, or those that [uid()] and [Date.now()]
    returned in one of the session's [addTodo] calls. *)
Theorem ids_and_times_are_given_once
    (acts : list Action) (st : State) (t' : Task) :
  In t' (todos (run acts st)) ->
  (exists t, In t (todos st) /\ id t = id t' /\ createdAt t = createdAt t') \/
  In (AddTodo (id t') (createdAt t')) acts.
Proof.
  revert st. induction acts as [|a acts IH]; intros st H.
  - left. exists t'. auto.
  - rewrite run_cons in H. destruct (IH _ H) as [[t [Ht [E1 E2]]]|Hin].
    + destruct (step_provenance a st t Ht) as [[u [Hu [F1 F2]]]|Ha].
      * left. exists u. split; [exact Hu|]. split; congruence.
      * right. left. now rewrite Ha, E1, E2.
    + right. now right.
Qed.

Lemma ids_and_times_are_given_once_witness :
  (exists t, In t (todos st_two) /\ id t = str "t2" /\ createdAt t = ms 20) \/
  In (AddTodo (str "t2") (ms 20)) acts_two.
Proof.
  refine (ids_and_times_are_given_once acts_two st_two
            (mkTask (str "t2") (str "Walk dog") false (ms 20)) _).
  vm_compute. tauto.
Defined.

Lemma NoDup_app_disjoint {A} (l1 l2 : list A) :
  List.NoDup (l1 ++ l2) -> forall a, In a l1 -> ~ In a l2.
Proof.
  induction l1 as [|x l1 IH]; cbn [app]; intros H a Ha; [destruct Ha|].
  apply NoDup_cons_iff in H. destruct H as [Hx H].
  destruct Ha as [->|Ha]; [|now apply IH].
  intros Hin. apply Hx. apply in_or_app. now right.
Qed.

Lemma step_ids (a : Action) (st : State) :
  (forall newId now, a <> AddTodo newId now) ->
  incl (ids (todos (step a st))) (ids (todos st)) /\
  (List.NoDup (ids (todos st)) -> List.NoDup (ids (todos (step a st)))).
Proof.
  intros Ha.
  assert (Same : incl (ids (todos st)) (ids (todos st)) /\
                 (List.NoDup (ids (todos st)) -> List.NoDup (ids (todos st))))
    by (split; [apply incl_refl | auto]).
  assert (Filt : forall p,
            incl (ids (List.filter p (todos st))) (ids (todos st)) /\
            (List.NoDup (ids (todos st)) ->
             List.NoDup (ids (List.filter p (todos st))))).
  { intros p. split; [|apply NoDup_ids_filter].
    unfold ids. apply incl_map, incl_filter. }
  assert (Map : forall f : Task -> Task,
            (forall t, id (f t) = id t) ->
            incl (ids (List.map f (todos st))) (ids (todos st)) /\
            (List.NoDup (ids (todos st)) ->
             List.NoDup (ids (List.map f (todos st))))).
  { intros f Hf. rewrite (ids_map_keeps f _ Hf). exact Same. }
  destruct a; cbn [step]; try exact Same.
  - now destruct (Ha newId now).
  - unfold toggle. cbn [todos setTodos]. apply Map.
    intros t. now destruct (id_eqb (id t) i).
  - unfold remove. cbn [todos setTodos]. apply Filt.
  - unfold clearCompleted. cbn [todos setTodos]. apply Filt.
  - unfold saveEdit. destruct (falsyId (editingId st)); [exact Same|].
    destruct (truthy (trim (editingText st))); cbn [negb];
      cbn [todos setTodos setEditingText setEditingId].
    + apply Map. intros t. now destruct (isEditing st t).
    + apply Filt.
  - unfold toggleAll. cbn [todos setTodos]. apply Map. reflexivity.
Qed.

(** X14. If the ids that [uid()] returns during a session differ from each
    other and from the ids of the loaded list, which are pairwise distinct,
    then the ids of the list are pairwise distinct after the session; with
    X12: a session that starts with the empty list keeps both invariants of
    a task list. *)
Theorem sessions_keep_ids_distinct (acts : list Action) (st : State) :
  (List.NoDup (ids (todos st) ++ supplied_ids acts) ->
   List.NoDup (ids (todos (run acts st)))) /\
  (List.NoDup (supplied_ids acts) ->
   spec_invariant (todos (run acts (initialState [])))).
Proof.
  assert (G : forall s, List.NoDup (ids (todos s) ++ supplied_ids acts) ->
                        List.NoDup (ids (todos (run acts s)))).
  { induction acts as [|a acts IH]; intros s H.
    - cbn [supplied_ids] in H. rewrite app_nil_r in H. exact H.
    - rewrite run_cons. apply IH.
      assert (Other : (forall newId now, a <> AddTodo newId now) ->
                      supplied_ids (a :: acts) = supplied_ids acts ->
                      List.NoDup (ids (todos (step a s)) ++ supplied_ids acts)).
      { intros Ha E. rewrite E in H. destruct (step_ids a s Ha) as [Hi Hn].
        apply List.NoDup_app.
        - apply Hn. now apply List.NoDup_app_remove_r in H.
        - now apply List.NoDup_app_remove_l in H.
        - intros x Hx. apply (NoDup_app_disjoint _ _ H). now apply Hi. }
      destruct a; try (apply Other; [discriminate | reflexivity]).
      cbn [supplied_ids] in H. cbn [step]. unfold addTodo.
      apply List.NoDup_remove in H. destruct H as [H Hnew].
      destruct (truthy (trim (inputText s))); cbn [negb]; [|exact H].
      cbn [todos setText setTodos]. unfold ids. cbn [List.map id app].
      now constructor. }
  split; [apply G|]. intros H. split.
  - apply G. exact H.
  - assert (T : trimmed_texts (todos (run acts (initialState []))))
      by (apply run_keeps_texts_trimmed; constructor).
    unfold trimmed_texts in T. rewrite List.Forall_forall in *.
    intros t Ht. destruct (T t Ht) as [E Hne]. now rewrite E.
Qed.

Lemma sessions_keep_ids_distinct_witness :
  spec_invariant (todos (run acts_two (initialState []))).
Proof.
  refine (proj2 (sessions_keep_ids_distinct acts_two (initialState [])) _).
  repeat constructor; vm_compute; intuition discriminate.
Defined.

(** ** Searching *)

Lemma includes_self (s : jsstring) : includes s s = true.
Proof. apply includes_spec. exists [], []. now rewrite app_nil_r. Qed.

(** X15. Typing a task's text in the search box, with or without white
    space around it and whatever the letter case mapping, keeps that task
    in the view All; for every search, each view is part of the view All,
    which has as many tasks as the views Active and Completed together. *)
Theorem search_finds_the_text
    (toLowerCase : jsstring -> jsstring) (st : State) :
  (forall t q,
     In t (todos st) -> trim q = text t ->
     In t (filtered toLowerCase (setSearch q (setFilter all st)))) /\
  (forall k,
     incl (filtered toLowerCase (setFilter k st))
          (filtered toLowerCase (setFilter all st))) /\
  length (filtered toLowerCase (setFilter all st)) =
    (length (filtered toLowerCase (setFilter active st)) +
     length (filtered toLowerCase (setFilter completed st)))%nat.
Proof.
  split; [|split].
  - intros t q Hin Hq. rewrite filtered_as_filters.
    cbn [search setSearch setFilter todos filter]. rewrite Hq.
    apply filter_In. split.
    + apply filter_In. split; [exact Hin | reflexivity].
    + rewrite includes_self. apply orb_true_r.
  - intros k t. rewrite !filtered_as_filters.
    cbn [search setSearch setFilter todos filter]. rewrite !filter_In.
    intros [[H1 _] H2]. repeat split; assumption.
  - rewrite !filtered_as_filters.
    cbn [search setSearch setFilter todos filter].
    set (m := fun t : Task => _).
    rewrite (filter_comm m (FILTERS all)), (filter_comm m (FILTERS active)),
      (filter_comm m (FILTERS completed)).
    rewrite (filter_all (FILTERS all)) by reflexivity.
    rewrite (length_filter_split (fun t => done t) (List.filter m (todos st))).
    apply Nat.add_comm.
Qed.

Lemma search_finds_the_text_witness :
  In (mkTask (str "t1") (str "Buy milk") true (ms 10))
     (filtered asciiLower (setSearch (str "  Buy milk ") (setFilter all st_two))).
Proof.
  refine (proj1 (search_finds_the_text asciiLower st_two) _ _ _ _).
  - right. left. reflexivity.
  - reflexivity.
Defined.

(** ** What [addTodo] keeps of the typed text *)

Lemma forallb_rev_true {A} (p : A -> bool) (l : list A) :
  forallb p l = true -> forallb p (rev l) = true.
Proof.
  rewrite !forallb_forall. intros H a Ha. apply H. now apply in_rev.
Qed.

(** [trim] cuts white space off both ends and nothing else. *)
Lemma trim_spec (s : jsstring) :
  exists pre post,
    s = pre ++ trim s ++ post /\
    forallb isWhiteSpace pre = true /\ forallb isWhiteSpace post = true /\
    (trim s <> [] ->
     (exists c r, trim s = c :: r /\ isWhiteSpace c = false) /\
     (exists r c, trim s = r ++ [c] /\ isWhiteSpace c = false)).
Proof.
  unfold trim, trimEnd, trimStart.
  destruct (dropWhile_suffix isWhiteSpace s) as [pre [Es Hpre]].
  remember (dropWhile isWhiteSpace s) as a eqn:Ha.
  destruct (dropWhile_suffix isWhiteSpace (rev a)) as [pre2 [Ea Hpre2]].
  remember (dropWhile isWhiteSpace (rev a)) as b eqn:Hb.
  assert (Ea' : a = rev b ++ rev pre2).
  { rewrite <- rev_app_distr, <- Ea. now rewrite rev_involutive. }
  exists pre, (rev pre2). split; [now rewrite <- Ea'|].
  split; [exact Hpre|]. split; [now apply forallb_rev_true|].
  intros Hne. destruct b as [|y b]; [now destruct Hne|].
  symmetry in Hb. pose proof (dropWhile_head _ _ _ _ Hb) as Hy. split.
  - destruct (rev (y :: b)) as [|c r] eqn:Er; [now destruct Hne|].
    exists c, r. split; [reflexivity|].
    rewrite Ea' in Ha. cbn [app] in Ha. symmetry in Ha.
    exact (dropWhile_head _ _ _ _ Ha).
  - exists (rev b), y. split; [reflexivity | exact Hy].
Qed.

(** X16. A blank text in the input makes [add] change nothing: no task is
    added and the typed text stays in the box. Any other text gives a task
    whose text is the typed one without the white space at its two ends,
    which is all that is cut: the text starts and ends with a code unit
    that is no white space; the box is emptied, and filter, search and
    edit state are as before. *)
Theorem add_keeps_the_inner_text
    (raw newId : jsstring) (now : number) (st : State) :
  (trim raw = [] -> add raw newId now st = setText raw st) /\
  (trim raw <> [] ->
   exists t pre post,
     add raw newId now st = setText [] (setTodos (t :: todos st) st) /\
     raw = pre ++ text t ++ post /\
     forallb isWhiteSpace pre = true /\ forallb isWhiteSpace post = true /\
     (exists c r, text t = c :: r /\ isWhiteSpace c = false) /\
     (exists r c, text t = r ++ [c] /\ isWhiteSpace c = false)).
Proof.
  split.
  - intros H. unfold add, addTodo. cbn [inputText setText].
    now rewrite H.
  - intros H. destruct (trim_spec raw) as (pre & post & E & Hp & Hq & Hends).
    destruct (Hends H) as [Hc Hr].
    exists (mkTask newId (trim raw) false now), pre, post.
    split; [|cbn [text]; auto].
    unfold add, addTodo. cbn [inputText setText].
    rewrite (proj2 (truthy_true _) H). reflexivity.
Qed.

Lemma add_keeps_the_inner_text_witness :
  add (str "   ") (str "t3") (ms 30) st_two = setText (str "   ") st_two /\
  exists t pre post,
    add (str " Call  mom ") (str "t3") (ms 30) st_two
      = setText [] (setTodos (t :: todos st_two) st_two) /\
    str " Call  mom " = pre ++ text t ++ post.
Proof.
  split.
  - refine (proj1 (add_keeps_the_inner_text _ _ _ st_two) _). reflexivity.
  - destruct (proj2 (add_keeps_the_inner_text (str " Call  mom ") (str "t3")
                       (ms 30) st_two))
      as (t & pre & post & E1 & E2 & _).
    + vm_compute. discriminate.
    + exists t, pre, post. split; assumption.
Defined.

(** ** The order of clicks *)

Lemma setTodos_setTodos (l l' : list Task) (st : State) :
  setTodos l (setTodos l' st) = setTodos l st.
Proof. reflexivity. Qed.

(** X17. Ticking two check boxes gives the same state in either order, and
    so do ticking one task and deleting another or the same one. *)
Theorem toggle_and_remove_commute (i j : jsstring) (st : State) :
  toggle i (toggle j st) = toggle j (toggle i st) /\
  toggle i (remove j st) = remove j (toggle i st).
Proof.
  split.
  - unfold toggle. rewrite !setTodos_setTodos. cbn [todos setTodos].
    apply (f_equal (fun l => setTodos l st)).
    rewrite !map_map. apply map_ext. intros t.
    destruct (id_eqb (id t) i) eqn:Ei, (id_eqb (id t) j) eqn:Ej;
      cbn [id]; rewrite ?Ei, ?Ej; cbn [id]; rewrite ?Ei, ?Ej; reflexivity.
  - unfold toggle, remove. rewrite !setTodos_setTodos. cbn [todos setTodos].
    apply (f_equal (fun l => setTodos l st)).
    rewrite filter_map_swap. f_equal. apply filter_ext. intros t.
    now destruct (id_eqb (id t) i).
Qed.
